(** * CompactBoolMatrix: a shallow embedding of [compact_bool.py]

    The Python class [CompactBoolMatrix] keeps a ctypes structure with two
    [c_int32] fields ([og_size], [new_size]) and a [new_size * new_size]
    array of [c_int8] cells.  Every method is embedded below as a
    computation in a small state-and-exception monad over that structure:
    a method either returns a value or raises, and in both cases hands the
    (possibly updated) structure on. *)

From Stdlib Require Import ZArith Lia Bool.
From stdpp Require Import base list strings.

Local Open Scope Z_scope.

(** ** Exceptions and the ctypes structure *)

(** [OutOfBound] is the class of the module; [IndexError] and [ValueError]
    are the ones the interpreter raises for a bad subscript and for a
    negative ctypes array length. *)
Inductive exn : Type :=
  | OutOfBound
  | IndexError
  | ValueError.

(** [_MatStruct_32]. *)
Record MatStruct : Type := mkMat {
  og_size : Z;
  new_size : Z;
  matrix : list (list Z)
}.

(** Storing an integer in a [w]-bit signed ctypes slot keeps the low [w]
    bits. *)
Definition wrap_signed (w : Z) (v : Z) : Z :=
  (v + 2 ^ (w - 1)) mod 2 ^ w - 2 ^ (w - 1).

Definition c_int32 (v : Z) : Z := wrap_signed 32 v.
Definition c_int8 (v : Z) : Z := wrap_signed 8 v.

(** [math.ceil(size / 2)]; the float quotient is exact for every size a
    matrix can be allocated for (and for every size up to 2^53 in
    absolute value). *)
Definition ceil_half (size : Z) : Z := - ((- size) / 2).

(** ** Subscripts

    ctypes arrays and Python lists treat a subscript the same way: a
    negative one is shifted by the length once, and whatever is then
    outside [0, len) raises [IndexError]. *)

Definition subscript (len : nat) (i : Z) : exn + nat :=
  let i' := if i <? 0 then i + Z.of_nat len else i in
  if (i' <? 0) || (Z.of_nat len <=? i') then inl IndexError
  else inr (Z.to_nat i').

Definition getitem {A : Type} (l : list A) (i : Z) : exn + A :=
  match subscript (length l) i with
  | inl e => inl e
  | inr n =>
      match l !! n with
      | Some a => inr a
      | None => inl IndexError
      end
  end.

Definition setitem {A : Type} (l : list A) (i : Z) (a : A) : exn + list A :=
  match subscript (length l) i with
  | inl e => inl e
  | inr n => inr (<[n := a]> l)
  end.

(** [range(n)] *)
Definition range (n : Z) : list Z := seqZ 0 n.

(** ** The monad of methods *)

Definition M (A : Type) : Type := MatStruct -> MatStruct * (exn + A).

Definition ret {A : Type} (a : A) : M A := fun m => (m, inr a).

Definition raise {A : Type} (e : exn) : M A := fun m => (m, inl e).

Definition bind {A B : Type} (c : M A) (k : A -> M B) : M B :=
  fun m =>
    match c m with
    | (m', inr a) => k a m'
    | (m', inl e) => (m', inl e)
    end.

Definition lift {A : Type} (r : exn + A) : M A := fun m => (m, r).

Notation "x <- c ;; k" := (bind c (fun x => k))
  (at level 100, c at next level, right associativity).
Notation "c ;; k" := (bind c (fun _ => k))
  (at level 100, right associativity).

Definition self_og_size : M Z := fun m => (m, inr (og_size m)).
Definition self_new_size : M Z := fun m => (m, inr (new_size m)).

(** [self.matrix.matrix[i][j]] *)
Definition read_cell (i j : Z) : M Z :=
  fun m =>
    match getitem (matrix m) i with
    | inl e => (m, inl e)
    | inr row => (m, getitem row j)
    end.

(** [self.matrix.matrix[i][j] = v]: the row [self.matrix.matrix[i]] is a
    view on the buffer of the structure, so the store lands in the
    structure itself. *)
Definition write_cell (i j v : Z) : M unit :=
  fun m =>
    match subscript (length (matrix m)) i with
    | inl e => (m, inl e)
    | inr n =>
        match matrix m !! n with
        | None => (m, inl IndexError)
        | Some row =>
            match setitem row j (c_int8 v) with
            | inl e => (m, inl e)
            | inr row' =>
                (mkMat (og_size m) (new_size m) (<[n := row']> (matrix m)),
                 inr tt)
            end
        end
    end.

Fixpoint for_each {A : Type} (l : list A) (body : A -> M unit) : M unit :=
  match l with
  | [] => ret tt
  | a :: l' => body a ;; for_each l' body
  end.

Fixpoint for_fold {A S : Type} (l : list A) (body : A -> S -> M S) (s : S)
  : M S :=
  match l with
  | [] => ret s
  | a :: l' => s' <- body a s ;; for_fold l' body s'
  end.

(** A loop whose body may [return]: [Some r] leaves the loop (and the
    method) with [r], [None] goes on with the next element. *)
Fixpoint for_return {A R : Type} (l : list A) (body : A -> exn + option R)
  : exn + option R :=
  match l with
  | [] => inr None
  | a :: l' =>
      match body a with
      | inl e => inl e
      | inr (Some r) => inr (Some r)
      | inr None => for_return l' body
      end
  end.

(** The line feed, character 10. *)
Definition newline : string :=
  String (Ascii.Ascii false true false true false false false false)
    EmptyString.

(** [str(b)] for a boolean. *)
Definition str_bool (b : bool) : string :=
  if b then "True"%string else "False"%string.

(** ** The class *)

Module CompactBoolMatrix.

(** [__init__].  The allocation of the structure is taken to succeed: a
    size too large for the memory of the machine, where the interpreter
    raises [MemoryError], is outside what is embedded, and so is a length
    below -2^63, which the interpreter refuses before ctypes sees it. *)
Definition init (size : Z) : exn + MatStruct :=
  let new_size := ceil_half size in
  if new_size <? 0 then inl ValueError
  else
    let n := Z.to_nat new_size in
    inr (mkMat (c_int32 size) (c_int32 new_size) (replicate n (replicate n 0))).

Definition all_false : M unit :=
  n <- self_new_size ;;
  for_each (range n) (fun i =>
    n' <- self_new_size ;;
    for_each (range n') (fun j => write_cell i j 0)).

Definition all_true : M unit :=
  n <- self_new_size ;;
  for_each (range n) (fun i =>
    n' <- self_new_size ;;
    for_each (range n') (fun j => write_cell i j 15)).

(** [__get_domain] *)
Definition get_domain (x y : Z) : M Z :=
  s <- self_new_size ;;
  og <- self_og_size ;;
  if (x >=? og) || (y >=? og) then raise OutOfBound
  else if (x <? s) && (y <? s) then ret 0
  else if (x >? s) && (s >? y) then ret 1
  else if (x <? s) && (s <? y) then ret 2
  else ret 3.

(** [__get_compact_val] *)
Definition get_compact_val (x y domain : Z) : M Z :=
  s <- self_new_size ;;
  if domain =? 0 then read_cell x y
  else if domain =? 1 then read_cell (x - s) y
  else if domain =? 2 then read_cell x (y - s)
  else read_cell (x - s) (y - s).

(** The [value_table]s of [set_false], by domain. *)
Definition set_false_table_0 : list Z :=
  [0; 0; 2; 3; 4; 2; 3; 4; 8; 9; 10; 8; 9; 10; 14; 14].
Definition set_false_table_1 : list Z :=
  [0; 1; 0; 3; 4; 1; 6; 7; 3; 4; 10; 6; 7; 13; 10; 13].
Definition set_false_table_2 : list Z :=
  [0; 1; 2; 0; 4; 5; 1; 7; 2; 9; 4; 5; 12; 7; 9; 12].
Definition set_false_table_3 : list Z :=
  [0; 1; 2; 3; 0; 5; 6; 1; 8; 2; 3; 11; 5; 6; 8; 11].

Definition set_false (x y : Z) : M unit :=
  domain <- get_domain x y ;;
  if domain =? 0 then
    val <- get_compact_val x y domain ;;
    v <- lift (getitem set_false_table_0 val) ;;
    write_cell x y v
  else if domain =? 1 then
    val <- get_compact_val x y domain ;;
    v <- lift (getitem set_false_table_1 val) ;;
    s <- self_new_size ;;
    write_cell (x - s) y v
  else if domain =? 2 then
    val <- get_compact_val x y domain ;;
    v <- lift (getitem set_false_table_2 val) ;;
    s <- self_new_size ;;
    write_cell x (y - s) v
  else
    val <- get_compact_val x y domain ;;
    v <- lift (getitem set_false_table_3 val) ;;
    s <- self_new_size ;;
    write_cell (x - s) (y - s) v.

(** The [value_table]s of [set_true], by domain. *)
Definition set_true_table_0 : list Z :=
  [1; 1; 5; 6; 7; 5; 6; 7; 11; 12; 13; 11; 12; 13; 15; 15].
Definition set_true_table_1 : list Z :=
  [2; 5; 2; 8; 9; 5; 11; 12; 8; 9; 14; 11; 12; 15; 14; 15].
Definition set_true_table_2 : list Z :=
  [3; 6; 8; 3; 10; 11; 6; 13; 8; 14; 10; 11; 15; 13; 14; 15].
Definition set_true_table_3 : list Z :=
  [4; 7; 9; 10; 4; 12; 13; 7; 14; 9; 10; 15; 12; 13; 14; 15].

Definition set_true (x y : Z) : M unit :=
  domain <- get_domain x y ;;
  if domain =? 0 then
    val <- get_compact_val x y domain ;;
    v <- lift (getitem set_true_table_0 val) ;;
    write_cell x y v
  else if domain =? 1 then
    val <- get_compact_val x y domain ;;
    v <- lift (getitem set_true_table_1 val) ;;
    s <- self_new_size ;;
    write_cell (x - s) y v
  else if domain =? 2 then
    val <- get_compact_val x y domain ;;
    v <- lift (getitem set_true_table_2 val) ;;
    s <- self_new_size ;;
    write_cell x (y - s) v
  else
    val <- get_compact_val x y domain ;;
    v <- lift (getitem set_true_table_3 val) ;;
    s <- self_new_size ;;
    write_cell (x - s) (y - s) v.

(** The [truth_table]s of [get], by domain. *)
Definition truth_table_0 : list bool :=
  [false; true; false; false; false; true; true; true;
   false; false; false; true; true; true; false; true].
Definition truth_table_1 : list bool :=
  [false; false; true; false; false; true; false; false;
   true; true; false; true; true; false; true; true].
Definition truth_table_2 : list bool :=
  [false; false; false; true; false; false; true; false;
   true; false; true; true; false; true; true; true].
Definition truth_table_3 : list bool :=
  [false; false; false; false; true; false; false; true;
   false; true; true; false; true; true; true; true].

Definition get (x y : Z) : M bool :=
  domain <- get_domain x y ;;
  if domain =? 0 then
    val <- get_compact_val x y domain ;;
    lift (getitem truth_table_0 val)
  else if domain =? 1 then
    val <- get_compact_val x y domain ;;
    lift (getitem truth_table_1 val)
  else if domain =? 2 then
    val <- get_compact_val x y domain ;;
    lift (getitem truth_table_2 val)
  else
    val <- get_compact_val x y domain ;;
    lift (getitem truth_table_3 val).

Definition switch (x y : Z) : M unit :=
  b <- get x y ;;
  if b then set_false x y else set_true x y.

(** [compact_to_normal]: [res] is a local list of lists, filled cell by
    cell. *)
Definition compact_to_normal : M (list (list bool)) :=
  og <- self_og_size ;;
  let res := replicate (Z.to_nat og) (replicate (Z.to_nat og) false) in
  for_fold (range og) (fun i res =>
    og' <- self_og_size ;;
    for_fold (range og') (fun j res =>
      b <- get i j ;;
      row <- lift (getitem res i) ;;
      row' <- lift (setitem row j b) ;;
      lift (setitem res i row')) res) res.

(** [__str__] *)
Definition __str__ : M string :=
  og <- self_og_size ;;
  for_fold (range og) (fun i string =>
    og' <- self_og_size ;;
    string' <- for_fold (range og') (fun j string =>
      b <- get i j ;;
      ret (string +:+ (str_bool b +:+ " "))) string ;;
    ret (string' +:+ newline)) EmptyString.

(** [__len__]; the square of a [c_int32] passes the checks [len()] makes
    on what [__len__] returns. *)
Definition __len__ : M Z :=
  og <- self_og_size ;;
  og' <- self_og_size ;;
  ret (og * og').

(** [__eq__], for [other] another matrix.  Neither [__len__] nor [get]
    stores anything, so the two operands are read, not threaded. *)
Definition __eq__ (self other : MatStruct) : exn + bool :=
  match snd (__len__ self), snd (__len__ other) with
  | inl e, _ => inl e
  | _, inl e => inl e
  | inr n, inr n' =>
      if negb (n =? n') then inr false
      else
        match
          for_return (range (og_size self)) (fun i =>
            for_return (range (og_size self)) (fun j =>
              match snd (get i j self) with
              | inl e => inl e
              | inr a =>
                  match snd (get i j other) with
                  | inl e => inl e
                  | inr b =>
                      if negb (Bool.eqb a b) then inr (Some false)
                      else inr None
                  end
              end))
        with
        | inl e => inl e
        | inr (Some r) => inr r
        | inr None => inr true
        end
  end.

(** The example of the [__main__] block, up to the prints. *)
Definition main_calls : M unit :=
  all_false ;;
  switch 2 0 ;;
  switch 2 1 ;;
  switch 0 2 ;;
  switch 1 2 ;;
  switch 3 2 ;;
  switch 4 2 ;;
  switch 2 2 ;;
  set_true 2 3 ;;
  set_true 2 4.

Definition main_ops : M (list (list bool)) :=
  main_calls ;;
  compact_to_normal.

Definition main : exn + (MatStruct * (exn + list (list bool))) :=
  match init 5 with
  | inl e => inl e
  | inr mat => inr (main_ops mat)
  end.

End CompactBoolMatrix.

Import CompactBoolMatrix.

(** * Definitions for the statements *)

(** ** The tables, read as functions of the domain *)

Definition truth_table (d : Z) : list bool :=
  if d =? 0 then truth_table_0
  else if d =? 1 then truth_table_1
  else if d =? 2 then truth_table_2
  else truth_table_3.

Definition set_true_table (d : Z) : list Z :=
  if d =? 0 then set_true_table_0
  else if d =? 1 then set_true_table_1
  else if d =? 2 then set_true_table_2
  else set_true_table_3.

Definition set_false_table (d : Z) : list Z :=
  if d =? 0 then set_false_table_0
  else if d =? 1 then set_false_table_1
  else if d =? 2 then set_false_table_2
  else set_false_table_3.

Definition decode (d v : Z) : bool :=
  default false (truth_table d !! Z.to_nat v).
Definition force_true (d v : Z) : Z :=
  default 0 (set_true_table d !! Z.to_nat v).
Definition force_false (d v : Z) : Z :=
  default 0 (set_false_table d !! Z.to_nat v).

(** ** The packed store *)

Definition cell (m : MatStruct) (i j : nat) : option Z :=
  match matrix m !! i with
  | Some row => row !! j
  | None => None
  end.

Definition upd (m : MatStruct) (i j : nat) (v : Z) : MatStruct :=
  match matrix m !! i with
  | Some row =>
      mkMat (og_size m) (new_size m) (<[i := <[j := v]> row]> (matrix m))
  | None => m
  end.

(** The position a subscript lands on in an array of length [s]. *)
Definition norm (s i : Z) : nat := Z.to_nat (if i <? 0 then i + s else i).

Definition nibble (v : Z) : Prop := 0 <= v <= 15.

Definition cells_ok (m : MatStruct) : Prop :=
  Forall (Forall nibble) (matrix m).

Definition shape_ok (m : MatStruct) : Prop :=
  0 <= new_size m /\
  length (matrix m) = Z.to_nat (new_size m) /\
  Forall (fun row => length row = Z.to_nat (new_size m)) (matrix m).

(** The structures the constructor builds for a positive size, in any
    state the methods can bring them to. *)
Definition wf (m : MatStruct) : Prop :=
  0 < og_size m /\
  new_size m = ceil_half (og_size m) /\
  shape_ok m /\
  cells_ok m.

(** ** The partitioner, as a function *)

(** The domain [__get_domain] answers once the range check has passed. *)
Definition domain_of (s x y : Z) : Z :=
  if (x <? s) && (y <? s) then 0
  else if (x >? s) && (s >? y) then 1
  else if (x <? s) && (s <? y) then 2
  else 3.

(** The subscripts the methods use for domain [d]. *)
Definition packed_x (s x d : Z) : Z :=
  if d =? 0 then x else if d =? 1 then x - s else if d =? 2 then x else x - s.
Definition packed_y (s y d : Z) : Z :=
  if d =? 0 then y else if d =? 1 then y else if d =? 2 then y - s else y - s.

Definition dom (m : MatStruct) (x y : Z) : Z := domain_of (new_size m) x y.
Definition slot_row (m : MatStruct) (x y : Z) : nat :=
  norm (new_size m) (packed_x (new_size m) x (dom m x y)).
Definition slot_col (m : MatStruct) (x y : Z) : nat :=
  norm (new_size m) (packed_y (new_size m) y (dom m x y)).

(** The subscripts fit the store (possibly after the shift of a negative
    one). *)
Definition addressable (m : MatStruct) (x y : Z) : Prop :=
  x < og_size m /\ y < og_size m /\
  - new_size m <= packed_x (new_size m) x (dom m x y) < new_size m /\
  - new_size m <= packed_y (new_size m) y (dom m x y) < new_size m.

(** ** Checking well-formedness by computation *)

Definition nibbleb (v : Z) : bool := (0 <=? v) && (v <=? 15).

Definition wfb (m : MatStruct) : bool :=
  (0 <? og_size m) && (new_size m =? ceil_half (og_size m)) &&
  (0 <=? new_size m) &&
  (Z.of_nat (length (matrix m)) =? new_size m) &&
  forallb (fun row => (Z.of_nat (length row) =? new_size m) &&
                      forallb nibbleb row) (matrix m).

(** ** Filling the store *)

(** The two nested loops shared by [all_false] and [all_true]. *)
Definition fill_loops (v : Z) : M unit :=
  n <- self_new_size ;;
  for_each (range n) (fun i =>
    n' <- self_new_size ;;
    for_each (range n') (fun j => write_cell i j v)).

(** The structure is still the one the loops started on. *)
Definition framed (og s : Z) (m : MatStruct) : Prop :=
  og_size m = og /\ new_size m = s /\ shape_ok m /\ cells_ok m.

(** Every cell before position [(i, k)], in row-major order, holds [v]. *)
Definition filled_before (v og s i k : Z) (m : MatStruct) : Prop :=
  framed og s m /\
  forall i' j' : nat,
    (i' < Z.to_nat s)%nat -> (j' < Z.to_nat s)%nat ->
    Z.of_nat i' < i \/ (Z.of_nat i' = i /\ Z.of_nat j' < k) ->
    cell m i' j' = Some v.

(** ** What every method keeps, on any structure *)

(** [keeps c Q]: [c] hands on a store of nibbles when it is given one,
    whether it returns or raises, and what it returns satisfies [Q]. *)
Definition keeps {A : Type} (c : M A) (Q : A -> Prop) : Prop :=
  forall m, cells_ok m ->
    cells_ok (fst (c m)) /\ forall a, snd (c m) = inr a -> Q a.

Definition any {A : Type} (_ : A) : Prop := True.

(** ** The structures a program can reach *)

Inductive call : Type :=
  | CallGet (x y : Z)
  | CallSetTrue (x y : Z)
  | CallSetFalse (x y : Z)
  | CallSwitch (x y : Z)
  | CallAllFalse
  | CallAllTrue.

(** The structure a call leaves behind, whether it returns or raises. *)
Definition after (c : call) (m : MatStruct) : MatStruct :=
  match c with
  | CallGet x y => fst (get x y m)
  | CallSetTrue x y => fst (set_true x y m)
  | CallSetFalse x y => fst (set_false x y m)
  | CallSwitch x y => fst (switch x y m)
  | CallAllFalse => fst (all_false m)
  | CallAllTrue => fst (all_true m)
  end.

Inductive reachable : MatStruct -> Prop :=
  | reach_init (size : Z) (m : MatStruct) :
      init size = inr m -> reachable m
  | reach_call (c : call) (m : MatStruct) :
      reachable m -> reachable (after c m).

(** ** Sample structures *)

Definition mat4 : MatStruct := mkMat 4 2 [[0; 0]; [0; 0]].
Definition mat5 : MatStruct :=
  mkMat 5 3 [[0; 0; 0]; [0; 0; 0]; [0; 0; 0]].

(** The dense matrix the example prints. *)
Definition plus_shape : list (list bool) :=
  [[false; false; true; false; false];
   [false; false; true; false; false];
   [true; true; true; true; true];
   [false; false; true; false; false];
   [false; false; true; false; false]].

(** ** The partition the quadrants call for

    Domain 0 is the quadrant with both coordinates below [s], domain 1 the
    one with [x >= s] and [y < s], domain 2 the one with [x < s] and
    [y >= s], domain 3 the remaining one. *)
Definition quadrant (s x y : Z) : Z :=
  if (x <? s) && (y <? s) then 0
  else if (s <=? x) && (y <? s) then 1
  else if (x <? s) && (s <=? y) then 2
  else 3.

(** ** The partition [__get_domain] computes, in closed form *)

Definition domain_at (s x y : Z) : Z :=
  if (x =? s) || (y =? s) then 3 else quadrant s x y.

(** ** Structures reached from one constructor call *)

Inductive reachable_from (size : Z) : MatStruct -> Prop :=
  | from_init (m : MatStruct) :
      init size = inr m -> reachable_from size m
  | from_call (c : call) (m : MatStruct) :
      reachable_from size m -> reachable_from size (after c m).

(** ** The dense matrix and its text *)

(** The boolean read at a coordinate. *)
Definition bit (m : MatStruct) (x y : Z) : bool :=
  decode (dom m x y) (default 0 (cell m (slot_row m x y) (slot_col m x y))).

Definition dense (m : MatStruct) : list (list bool) :=
  (fun i => (fun j => bit m i j) <$> range (og_size m)) <$> range (og_size m).

Definition entry (res : list (list bool)) (i j : nat) : option bool :=
  match res !! i with
  | Some row => row !! j
  | None => None
  end.

Fixpoint concat_text (l : list string) : string :=
  match l with
  | [] => EmptyString
  | t :: l' => t +:+ concat_text l'
  end.

(** One text row per list, each boolean followed by a blank, each row by
    a line feed. *)
Definition render (res : list (list bool)) : string :=
  concat_text
    ((fun row => concat_text ((fun b => str_bool b +:+ " ") <$> row)
                 +:+ newline) <$> res).

(** ** The effect of a storing method

    What [set_true], [set_false] and [switch] leave behind on [m]: either
    they raise and [m] is as it was, or they return after one store of a
    nibble. *)
Definition one_store (m : MatStruct) (r : MatStruct * (exn + unit)) : Prop :=
  (exists e, r = (m, inl e)) \/
  (exists n k w, nibble w /\ r = (upd m n k w, inr tt)).

(** The text of the first [k] cells of row [i], and of the first [i]
    rows of a matrix of [n] columns. *)
Definition text_cells (m : MatStruct) (i k : Z) : string :=
  concat_text ((fun j => str_bool (bit m i j) +:+ " ") <$> seqZ 0 k).

Definition text_rows (m : MatStruct) (n i : Z) : string :=
  concat_text ((fun i' => text_cells m i' n +:+ newline) <$> seqZ 0 i).

(** What [compact_to_normal] has filled in when it reaches [(i, k)]. *)
Definition dense_before (m : MatStruct) (i k : Z) (res : list (list bool))
  : Prop :=
  length res = Z.to_nat (og_size m) /\
  Forall (fun row => length row = Z.to_nat (og_size m)) res /\
  forall i' j' : nat,
    (i' < Z.to_nat (og_size m))%nat -> (j' < Z.to_nat (og_size m))%nat ->
    Z.of_nat i' < i \/ (Z.of_nat i' = i /\ Z.of_nat j' < k) ->
    entry res i' j' = Some (bit m (Z.of_nat i') (Z.of_nat j')).

(** The coordinate a negative one stands for inside the store. *)
Definition wrap_index (s i : Z) : Z := if i <? 0 then i + s else i.

(** ** Tactics *)

Ltac each_nibble v H :=
  let C := fresh "C" in
  assert (v = 0 \/ v = 1 \/ v = 2 \/ v = 3 \/ v = 4 \/ v = 5 \/ v = 6 \/
          v = 7 \/ v = 8 \/ v = 9 \/ v = 10 \/ v = 11 \/ v = 12 \/
          v = 13 \/ v = 14 \/ v = 15) as C by (unfold nibble in H; lia);
  destruct C as
    [->|[->|[->|[->|[->|[->|[->|[->|[->|[->|[->|[->|[->|[->|[->| ->]]]]]]]]]]]]]]].

Ltac each_domain d H :=
  let C := fresh "C" in
  assert (d = 0 \/ d = 1 \/ d = 2 \/ d = 3) as C by lia;
  destruct C as [->|[->|[->| ->]]].

Ltac split_comparisons :=
  rewrite ?Z.gtb_ltb;
  repeat match goal with
    | |- context [?a <? ?b] => destruct (Z.ltb_spec a b)
    end;
  simpl.

(** * Lemmas *)

(** ** Arithmetic of the representation *)

Lemma ceil_half_spec (n : Z) : 2 * ceil_half n - 1 <= n <= 2 * ceil_half n.
Proof. unfold ceil_half. Z.div_mod_to_equations. lia. Qed.

Lemma c_int8_small (v : Z) : 0 <= v <= 15 -> c_int8 v = v.
Proof.
  intros Hv. unfold c_int8, wrap_signed. change (2 ^ (8 - 1)) with 128.
  change (2 ^ 8) with 256. rewrite Z.mod_small; lia.
Qed.

Lemma c_int32_small (v : Z) : - 2 ^ 31 <= v < 2 ^ 31 -> c_int32 v = v.
Proof.
  intros Hv. unfold c_int32, wrap_signed. change (32 - 1) with 31.
  change (2 ^ 32) with (2 * 2 ^ 31). rewrite Z.mod_small; lia.
Qed.

(** ** The tables on nibbles *)

Section Tables.
Variables d v : Z.
Hypothesis Hd : 0 <= d <= 3.
Hypothesis Hv : 0 <= v <= 15.

Lemma truth_table_getitem : getitem (truth_table d) v = inr (decode d v).
Proof. each_domain d Hd; each_nibble v Hv; reflexivity. Qed.

Lemma set_true_table_getitem :
  getitem (set_true_table d) v = inr (force_true d v).
Proof. each_domain d Hd; each_nibble v Hv; reflexivity. Qed.

Lemma set_false_table_getitem :
  getitem (set_false_table d) v = inr (force_false d v).
Proof. each_domain d Hd; each_nibble v Hv; reflexivity. Qed.

Lemma force_true_nibble : 0 <= force_true d v <= 15.
Proof. each_domain d Hd; each_nibble v Hv; vm_compute; split; discriminate. Qed.

Lemma force_false_nibble : 0 <= force_false d v <= 15.
Proof. each_domain d Hd; each_nibble v Hv; vm_compute; split; discriminate. Qed.

Lemma decode_force_true : decode d (force_true d v) = true.
Proof. each_domain d Hd; each_nibble v Hv; reflexivity. Qed.

Lemma decode_force_false : decode d (force_false d v) = false.
Proof. each_domain d Hd; each_nibble v Hv; reflexivity. Qed.

(** Forcing one domain leaves the decoded value of the others alone. *)
Lemma decode_force_true_other (d' : Z) :
  0 <= d' <= 3 -> d' <> d -> decode d' (force_true d v) = decode d' v.
Proof.
  intros Hd' Hne.
  each_domain d Hd; each_domain d' Hd'; try congruence;
    each_nibble v Hv; reflexivity.
Qed.

Lemma decode_force_false_other (d' : Z) :
  0 <= d' <= 3 -> d' <> d -> decode d' (force_false d v) = decode d' v.
Proof.
  intros Hd' Hne.
  each_domain d Hd; each_domain d' Hd'; try congruence;
    each_nibble v Hv; reflexivity.
Qed.
End Tables.

(** ** Subscripts and stores that fit the packed store *)

Lemma subscript_in_range (len : nat) (i : Z) :
  - Z.of_nat len <= i < Z.of_nat len ->
  subscript len i = inr (norm (Z.of_nat len) i).
Proof.
  intros Hi. unfold subscript, norm. cbv zeta.
  destruct (Z.ltb_spec i 0) as [Hneg|Hpos].
  - destruct (Z.ltb_spec (i + Z.of_nat len) 0); [lia|].
    destruct (Z.leb_spec (Z.of_nat len) (i + Z.of_nat len)); [lia|done].
  - destruct (Z.ltb_spec i 0); [lia|].
    destruct (Z.leb_spec (Z.of_nat len) i); [lia|done].
Qed.

Lemma norm_lt (s i : Z) : - s <= i < s -> (norm s i < Z.to_nat s)%nat.
Proof. intros Hi. unfold norm. destruct (Z.ltb_spec i 0); lia. Qed.

Lemma cell_upd_same (m : MatStruct) (i j : nat) (v w : Z) :
  cell m i j = Some w -> cell (upd m i j v) i j = Some v.
Proof.
  unfold cell, upd. destruct (matrix m !! i) as [row|] eqn:Hrow; [|done].
  intros Hj. simpl.
  rewrite list_lookup_insert_eq by (eapply lookup_lt_Some; eauto).
  apply list_lookup_insert_eq. eapply lookup_lt_Some; eauto.
Qed.

Lemma cell_upd_other (m : MatStruct) (i j i' j' : nat) (v : Z) :
  (i', j') <> (i, j) -> cell (upd m i j v) i' j' = cell m i' j'.
Proof.
  intros Hne. unfold cell, upd.
  destruct (matrix m !! i) as [row|] eqn:Hrow; [|done]. simpl.
  destruct (decide (i' = i)) as [->|Hi].
  - rewrite list_lookup_insert_eq by (eapply lookup_lt_Some; eauto).
    rewrite Hrow. apply list_lookup_insert_ne. congruence.
  - rewrite list_lookup_insert_ne by congruence. reflexivity.
Qed.

Lemma upd_og_size (m : MatStruct) (i j : nat) (v : Z) :
  og_size (upd m i j v) = og_size m.
Proof. unfold upd. destruct (matrix m !! i); reflexivity. Qed.

Lemma upd_new_size (m : MatStruct) (i j : nat) (v : Z) :
  new_size (upd m i j v) = new_size m.
Proof. unfold upd. destruct (matrix m !! i); reflexivity. Qed.

Lemma upd_shape_ok (m : MatStruct) (i j : nat) (v : Z) :
  shape_ok m -> shape_ok (upd m i j v).
Proof.
  intros (Hs & Hlen & Hrows). unfold upd.
  destruct (matrix m !! i) as [row|] eqn:Hrow; [|done].
  split; [done|]. split; simpl.
  - by rewrite length_insert.
  - apply Forall_insert; [done|]. rewrite length_insert.
    eapply (proj1 (Forall_lookup _ _) Hrows); eauto.
Qed.

Lemma upd_cells_ok (m : MatStruct) (i j : nat) (v : Z) :
  nibble v -> cells_ok m -> cells_ok (upd m i j v).
Proof.
  intros Hv Hc. unfold upd.
  destruct (matrix m !! i) as [row|] eqn:Hrow; [|done].
  unfold cells_ok. simpl. apply Forall_insert; [done|].
  apply Forall_insert; [|done].
  eapply (proj1 (Forall_lookup _ _) Hc); eauto.
Qed.

Lemma upd_wf (m : MatStruct) (i j : nat) (v : Z) :
  nibble v -> wf m -> wf (upd m i j v).
Proof.
  intros Hv (Hog & Hnew & Hs & Hc).
  split; [by rewrite upd_og_size|].
  split; [by rewrite upd_new_size, upd_og_size|].
  split; [by apply upd_shape_ok | by apply upd_cells_ok].
Qed.

Lemma cell_in_shape (m : MatStruct) (i j : nat) :
  shape_ok m ->
  (i < Z.to_nat (new_size m))%nat -> (j < Z.to_nat (new_size m))%nat ->
  exists row v, matrix m !! i = Some row /\ row !! j = Some v /\
                length row = Z.to_nat (new_size m).
Proof.
  intros (Hs & Hlen & Hrows) Hi Hj.
  destruct (lookup_lt_is_Some_2 (matrix m) i) as [row Hrow]; [lia|].
  pose proof (proj1 (Forall_lookup _ _) Hrows _ _ Hrow) as Hrl.
  simpl in Hrl.
  destruct (lookup_lt_is_Some_2 row j) as [v Hv]; [lia|].
  eauto.
Qed.

Lemma cell_nibble (m : MatStruct) (i j : nat) (v : Z) :
  cells_ok m -> cell m i j = Some v -> nibble v.
Proof.
  unfold cells_ok, cell. intros Hc.
  destruct (matrix m !! i) as [row|] eqn:Hrow; [|done]. intros Hv.
  pose proof (proj1 (Forall_lookup _ _) Hc _ _ Hrow) as Hr.
  eapply (proj1 (Forall_lookup _ _) Hr); eauto.
Qed.

(** Reading and writing through subscripts that fit the store. *)
Lemma read_cell_in_shape (m : MatStruct) (i j : Z) :
  shape_ok m ->
  - new_size m <= i < new_size m -> - new_size m <= j < new_size m ->
  exists v,
    cell m (norm (new_size m) i) (norm (new_size m) j) = Some v /\
    read_cell i j m = (m, inr v).
Proof.
  intros Hsh Hi Hj.
  destruct (cell_in_shape m (norm (new_size m) i) (norm (new_size m) j) Hsh)
    as (row & v & Hrow & Hv & Hrl); [by apply norm_lt..|].
  destruct Hsh as (Hs & Hlen & _).
  exists v. unfold cell, read_cell, getitem. rewrite Hrow. split; [done|].
  rewrite subscript_in_range by lia.
  replace (Z.of_nat (length (matrix m))) with (new_size m) by lia.
  rewrite Hrow. rewrite subscript_in_range by lia.
  replace (Z.of_nat (length row)) with (new_size m) by lia.
  by rewrite Hv.
Qed.

Lemma write_cell_in_shape (m : MatStruct) (i j w : Z) :
  shape_ok m ->
  - new_size m <= i < new_size m -> - new_size m <= j < new_size m ->
  write_cell i j w m =
    (upd m (norm (new_size m) i) (norm (new_size m) j) (c_int8 w), inr tt).
Proof.
  intros Hsh Hi Hj.
  destruct (cell_in_shape m (norm (new_size m) i) (norm (new_size m) j) Hsh)
    as (row & v & Hrow & Hv & Hrl); [by apply norm_lt..|].
  destruct Hsh as (Hs & Hlen & _).
  unfold write_cell, upd, setitem.
  rewrite subscript_in_range by lia.
  replace (Z.of_nat (length (matrix m))) with (new_size m) by lia.
  rewrite Hrow. rewrite subscript_in_range by lia.
  replace (Z.of_nat (length row)) with (new_size m) by lia.
  reflexivity.
Qed.

(** ** The partitioner and the dispatch on its answer *)

Lemma domain_of_range (s x y : Z) : 0 <= domain_of s x y <= 3.
Proof.
  unfold domain_of.
  destruct ((x <? s) && (y <? s)); [lia|].
  destruct ((x >? s) && (s >? y)); [lia|].
  destruct ((x <? s) && (s <? y)); lia.
Qed.

Lemma get_domain_in_range (m : MatStruct) (x y : Z) :
  x < og_size m -> y < og_size m ->
  get_domain x y m = (m, inr (dom m x y)).
Proof.
  intros Hx Hy. unfold get_domain, bind, self_new_size, self_og_size.
  rewrite !Z.geb_leb.
  destruct (Z.leb_spec (og_size m) x); [lia|].
  destruct (Z.leb_spec (og_size m) y); [lia|]. simpl.
  unfold dom, domain_of, ret.
  destruct ((x <? new_size m) && (y <? new_size m)); [done|].
  destruct ((x >? new_size m) && (new_size m >? y)); [done|].
  destruct ((x <? new_size m) && (new_size m <? y)); done.
Qed.

Lemma get_domain_out_of_range (m : MatStruct) (x y : Z) :
  og_size m <= x \/ og_size m <= y ->
  get_domain x y m = (m, inl OutOfBound).
Proof.
  intros Hxy. unfold get_domain, bind, self_new_size, self_og_size.
  rewrite !Z.geb_leb.
  destruct (Z.leb_spec (og_size m) x); [done|].
  destruct (Z.leb_spec (og_size m) y); [done|lia].
Qed.

Lemma get_compact_val_read (m : MatStruct) (x y d : Z) :
  get_compact_val x y d m =
  read_cell (packed_x (new_size m) x d) (packed_y (new_size m) y d) m.
Proof.
  unfold get_compact_val, bind, self_new_size, packed_x, packed_y.
  destruct (d =? 0); [done|]. destruct (d =? 1); [done|].
  destruct (d =? 2); done.
Qed.

(** The methods dispatch on the domain branch by branch; each branch is
    the same pipeline over the table of its domain. *)
Lemma get_unfold (m : MatStruct) (x y : Z) :
  get x y m =
  (d <- get_domain x y ;;
   val <- get_compact_val x y d ;;
   lift (getitem (truth_table d) val)) m.
Proof.
  unfold get, bind. destruct (get_domain x y m) as [m' [e|d]]; [done|].
  unfold truth_table.
  destruct (d =? 0); [done|]. destruct (d =? 1); [done|].
  destruct (d =? 2); done.
Qed.

Lemma set_true_unfold (m : MatStruct) (x y : Z) :
  set_true x y m =
  (d <- get_domain x y ;;
   val <- get_compact_val x y d ;;
   v <- lift (getitem (set_true_table d) val) ;;
   s <- self_new_size ;;
   write_cell (packed_x s x d) (packed_y s y d) v) m.
Proof.
  unfold set_true, bind. destruct (get_domain x y m) as [m' [e|d]]; [done|].
  unfold set_true_table, packed_x, packed_y, self_new_size, lift.
  destruct (d =? 0);
    [destruct (get_compact_val x y d m') as [m'' [e|val]]; [done|];
     destruct (getitem _ val); done|].
  destruct (d =? 1); [done|]. destruct (d =? 2); done.
Qed.

Lemma set_false_unfold (m : MatStruct) (x y : Z) :
  set_false x y m =
  (d <- get_domain x y ;;
   val <- get_compact_val x y d ;;
   v <- lift (getitem (set_false_table d) val) ;;
   s <- self_new_size ;;
   write_cell (packed_x s x d) (packed_y s y d) v) m.
Proof.
  unfold set_false, bind. destruct (get_domain x y m) as [m' [e|d]]; [done|].
  unfold set_false_table, packed_x, packed_y, self_new_size, lift.
  destruct (d =? 0);
    [destruct (get_compact_val x y d m') as [m'' [e|val]]; [done|];
     destruct (getitem _ val); done|].
  destruct (d =? 1); [done|]. destruct (d =? 2); done.
Qed.

(** ** The methods at an addressable coordinate *)

Section Addressed.
Variable m : MatStruct.
Variables x y : Z.
Hypothesis Hshape : shape_ok m.
Hypothesis Hcells : cells_ok m.
Hypothesis Haddr : addressable m x y.

Lemma addressed_cell :
  exists v, cell m (slot_row m x y) (slot_col m x y) = Some v /\ nibble v.
Proof.
  destruct Haddr as (_ & _ & Hr & Hc).
  destruct (read_cell_in_shape m _ _ Hshape Hr Hc) as (v & Hv & _).
  exists v. split; [done|]. eapply cell_nibble; eauto.
Qed.

Variable v : Z.
Hypothesis Hv : cell m (slot_row m x y) (slot_col m x y) = Some v.

Lemma compact_val_addressed :
  get_compact_val x y (dom m x y) m = (m, inr v).
Proof.
  destruct Haddr as (_ & _ & Hr & Hc).
  rewrite get_compact_val_read.
  destruct (read_cell_in_shape m _ _ Hshape Hr Hc) as (v' & Hv' & ->).
  unfold slot_row, slot_col in Hv. congruence.
Qed.

Lemma get_addressed : get x y m = (m, inr (decode (dom m x y) v)).
Proof.
  rewrite get_unfold. unfold bind.
  rewrite get_domain_in_range by apply Haddr.
  rewrite compact_val_addressed. unfold lift.
  rewrite truth_table_getitem;
    [done | apply domain_of_range | eapply cell_nibble; eauto].
Qed.

Lemma set_true_addressed :
  set_true x y m =
  (upd m (slot_row m x y) (slot_col m x y) (force_true (dom m x y) v),
   inr tt).
Proof.
  assert (nibble v) as Hn by (eapply cell_nibble; eauto).
  rewrite set_true_unfold. unfold bind.
  rewrite get_domain_in_range by apply Haddr.
  rewrite compact_val_addressed. unfold lift, self_new_size.
  rewrite set_true_table_getitem by (apply domain_of_range || done).
  rewrite write_cell_in_shape by (done || apply Haddr).
  rewrite c_int8_small; [done|].
  apply force_true_nibble; [apply domain_of_range | done].
Qed.

Lemma set_false_addressed :
  set_false x y m =
  (upd m (slot_row m x y) (slot_col m x y) (force_false (dom m x y) v),
   inr tt).
Proof.
  assert (nibble v) as Hn by (eapply cell_nibble; eauto).
  rewrite set_false_unfold. unfold bind.
  rewrite get_domain_in_range by apply Haddr.
  rewrite compact_val_addressed. unfold lift, self_new_size.
  rewrite set_false_table_getitem by (apply domain_of_range || done).
  rewrite write_cell_in_shape by (done || apply Haddr).
  rewrite c_int8_small; [done|].
  apply force_false_nibble; [apply domain_of_range | done].
Qed.

Lemma switch_addressed :
  switch x y m =
  (upd m (slot_row m x y) (slot_col m x y)
     (if decode (dom m x y) v then force_false (dom m x y) v
      else force_true (dom m x y) v),
   inr tt).
Proof.
  unfold switch, bind. rewrite get_addressed.
  destruct (decode (dom m x y) v).
  - apply set_false_addressed.
  - apply set_true_addressed.
Qed.
End Addressed.

(** A store does not move the partition: it keeps both sizes. *)
Lemma dom_upd (m : MatStruct) (i j : nat) (w x y : Z) :
  dom (upd m i j w) x y = dom m x y.
Proof. unfold dom. by rewrite upd_new_size. Qed.

Lemma slot_row_upd (m : MatStruct) (i j : nat) (w x y : Z) :
  slot_row (upd m i j w) x y = slot_row m x y.
Proof. unfold slot_row. by rewrite dom_upd, upd_new_size. Qed.

Lemma slot_col_upd (m : MatStruct) (i j : nat) (w x y : Z) :
  slot_col (upd m i j w) x y = slot_col m x y.
Proof. unfold slot_col. by rewrite dom_upd, upd_new_size. Qed.

Lemma addressable_upd (m : MatStruct) (i j : nat) (w x y : Z) :
  addressable m x y -> addressable (upd m i j w) x y.
Proof.
  unfold addressable. by rewrite dom_upd, upd_new_size, upd_og_size.
Qed.

(** Every coordinate inside the logical matrix is addressable. *)
Lemma valid_addressable (m : MatStruct) (x y : Z) :
  wf m -> 0 <= x < og_size m -> 0 <= y < og_size m -> addressable m x y.
Proof.
  intros (Hog & Hnew & _ & _) Hx Hy.
  pose proof (ceil_half_spec (og_size m)) as Hs. rewrite <- Hnew in Hs.
  unfold addressable, dom, domain_of, packed_x, packed_y.
  split; [lia|]. split; [lia|].
  split_comparisons; lia.
Qed.

(** ** Well-formed structures *)

Lemma wfb_sound (m : MatStruct) : wfb m = true -> wf m.
Proof.
  unfold wfb. rewrite !andb_true_iff.
  intros ((((Hog & Hnew) & Hs) & Hlen) & Hrows).
  apply Z.ltb_lt in Hog. apply Z.eqb_eq in Hnew, Hlen. apply Z.leb_le in Hs.
  rewrite forallb_forall in Hrows.
  repeat split; try done; try lia.
  - apply Forall_forall. intros row Hin.
    apply list_elem_of_In, Hrows, andb_true_iff, proj1, Z.eqb_eq in Hin. lia.
  - apply Forall_forall. intros row Hin.
    apply list_elem_of_In, Hrows, andb_true_iff, proj2 in Hin.
    rewrite forallb_forall in Hin.
    apply Forall_forall. intros v Hv.
    apply list_elem_of_In, Hin, andb_true_iff in Hv.
    destruct Hv as [?%Z.leb_le ?%Z.leb_le]. done.
Qed.

(** The constructor builds a well-formed, all-zero structure for every
    positive size that fits [og_size]. *)
Lemma init_wf (size : Z) :
  0 < size < 2 ^ 31 ->
  exists m, init size = inr m /\ wf m /\ og_size m = size /\
            forall i j, (i < Z.to_nat (new_size m))%nat ->
                        (j < Z.to_nat (new_size m))%nat ->
                        cell m i j = Some 0.
Proof.
  intros Hsize. pose proof (ceil_half_spec size) as Hs.
  unfold init. destruct (Z.ltb_spec (ceil_half size) 0); [lia|].
  eexists. split; [done|].
  rewrite !c_int32_small by lia.
  repeat split; simpl; try lia.
  - by rewrite length_replicate.
  - apply Forall_replicate. by rewrite length_replicate.
  - apply Forall_replicate, Forall_replicate. unfold nibble. lia.
  - intros i j Hi Hj. unfold cell. simpl.
    rewrite lookup_replicate_2 by done. by apply lookup_replicate_2.
Qed.

(** ** Reading a cell back after a store to its slot *)

Lemma get_after_upd (m : MatStruct) (x y v w : Z) :
  wf m -> addressable m x y -> nibble w ->
  cell m (slot_row m x y) (slot_col m x y) = Some v ->
  get x y (upd m (slot_row m x y) (slot_col m x y) w) =
    (upd m (slot_row m x y) (slot_col m x y) w, inr (decode (dom m x y) w)).
Proof.
  intros Hwf Haddr Hw Hv.
  destruct (upd_wf m (slot_row m x y) (slot_col m x y) w Hw Hwf)
    as (_ & _ & Hsh & Hc).
  rewrite <- (dom_upd m (slot_row m x y) (slot_col m x y) w x y).
  apply get_addressed; [done | done | by apply addressable_upd |].
  rewrite slot_row_upd, slot_col_upd. eapply cell_upd_same; eauto.
Qed.

(** A store to another slot, or through another domain of the same slot,
    is not seen by [get]. *)
Lemma get_frame (m : MatStruct) (x y x' y' v w : Z) :
  wf m -> addressable m x y -> addressable m x' y' ->
  cell m (slot_row m x y) (slot_col m x y) = Some v ->
  nibble w ->
  (forall d', 0 <= d' <= 3 -> d' <> dom m x y -> decode d' w = decode d' v) ->
  (slot_row m x' y', slot_col m x' y', dom m x' y') <>
  (slot_row m x y, slot_col m x y, dom m x y) ->
  fst (get x' y' (upd m (slot_row m x y) (slot_col m x y) w)) =
    upd m (slot_row m x y) (slot_col m x y) w /\
  snd (get x' y' (upd m (slot_row m x y) (slot_col m x y) w)) =
    snd (get x' y' m).
Proof.
  intros Hwf Haddr Haddr' Hv Hw Hother Hne.
  pose proof Hwf as (_ & _ & Hsh & Hc).
  destruct (addressed_cell m x' y' Hsh Hc Haddr') as (v' & Hv' & Hn').
  rewrite (get_addressed m x' y' Hsh Hc Haddr' v' Hv'). simpl.
  destruct (upd_wf m (slot_row m x y) (slot_col m x y) w Hw Hwf)
    as (_ & _ & Hsh1 & Hc1).
  destruct (decide ((slot_row m x' y', slot_col m x' y') =
                    (slot_row m x y, slot_col m x y))) as [Heq|Hslot].
  - injection Heq as Hr Hcl.
    assert (dom m x' y' <> dom m x y) as Hd by congruence.
    assert (v' = v) as -> by congruence.
    rewrite (get_addressed _ x' y' Hsh1 Hc1
               (addressable_upd _ _ _ _ _ _ Haddr') w).
    + rewrite dom_upd. simpl. split; [done|]. f_equal.
      apply Hother; [apply domain_of_range | done].
    + rewrite slot_row_upd, slot_col_upd, Hr, Hcl.
      eapply cell_upd_same; eauto.
  - rewrite (get_addressed _ x' y' Hsh1 Hc1
               (addressable_upd _ _ _ _ _ _ Haddr') v').
    + by rewrite dom_upd.
    + rewrite slot_row_upd, slot_col_upd. by rewrite cell_upd_other.
Qed.

(** [set_true] at one coordinate and [get] at another that the partitioner
    sends to a different slot, or to a different domain of the same slot. *)
Lemma set_true_frame (m : MatStruct) (x y x' y' : Z) :
  wf m -> 0 <= x < og_size m -> 0 <= y < og_size m ->
  0 <= x' < og_size m -> 0 <= y' < og_size m ->
  (slot_row m x' y', slot_col m x' y', dom m x' y') <>
  (slot_row m x y, slot_col m x y, dom m x y) ->
  snd ((set_true x y ;; get x' y') m) = snd (get x' y' m).
Proof.
  intros Hwf Hx Hy Hx' Hy' Hne.
  pose proof Hwf as (_ & _ & Hsh & Hc).
  pose proof (valid_addressable m x y Hwf Hx Hy) as Haddr.
  pose proof (valid_addressable m x' y' Hwf Hx' Hy') as Haddr'.
  destruct (addressed_cell m x y Hsh Hc Haddr) as (v & Hv & Hn).
  unfold bind. rewrite (set_true_addressed m x y Hsh Hc Haddr v Hv).
  eapply get_frame; eauto.
  - apply force_true_nibble; [apply domain_of_range | done].
  - intros d' Hd' Hdne.
    apply decode_force_true_other; [apply domain_of_range | done..].
Qed.

Lemma set_false_frame (m : MatStruct) (x y x' y' : Z) :
  wf m -> 0 <= x < og_size m -> 0 <= y < og_size m ->
  0 <= x' < og_size m -> 0 <= y' < og_size m ->
  (slot_row m x' y', slot_col m x' y', dom m x' y') <>
  (slot_row m x y, slot_col m x y, dom m x y) ->
  snd ((set_false x y ;; get x' y') m) = snd (get x' y' m).
Proof.
  intros Hwf Hx Hy Hx' Hy' Hne.
  pose proof Hwf as (_ & _ & Hsh & Hc).
  pose proof (valid_addressable m x y Hwf Hx Hy) as Haddr.
  pose proof (valid_addressable m x' y' Hwf Hx' Hy') as Haddr'.
  destruct (addressed_cell m x y Hsh Hc Haddr) as (v & Hv & Hn).
  unfold bind. rewrite (set_false_addressed m x y Hsh Hc Haddr v Hv).
  eapply get_frame; eauto.
  - apply force_false_nibble; [apply domain_of_range | done].
  - intros d' Hd' Hdne.
    apply decode_force_false_other; [apply domain_of_range | done..].
Qed.

(** On the row [x = new_size] and the column [y = new_size] the chained
    comparisons of [__get_domain] all fail, and the coordinate is taken
    for one of domain 3. *)
Lemma get_domain_boundary_row (m : MatStruct) (y : Z) :
  wf m -> new_size m < og_size m -> 0 <= y < og_size m ->
  get_domain (new_size m) y m = (m, inr 3).
Proof.
  intros Hwf Hs Hy. rewrite get_domain_in_range by lia.
  unfold dom, domain_of. split_comparisons; solve [done | lia].
Qed.

Lemma get_domain_boundary_column (m : MatStruct) (x : Z) :
  wf m -> new_size m < og_size m -> 0 <= x < og_size m ->
  get_domain x (new_size m) m = (m, inr 3).
Proof.
  intros Hwf Hs Hx. rewrite get_domain_in_range by lia.
  unfold dom, domain_of. split_comparisons; solve [done | lia].
Qed.

(** Off the row and the column [new_size] the partitioner answers the
    quadrant; on them it answers 3. *)
Lemma domain_of_off_boundary (s x y : Z) :
  x <> s -> y <> s -> domain_of s x y = quadrant s x y.
Proof.
  intros Hx Hy. unfold domain_of, quadrant. rewrite !Z.gtb_ltb.
  destruct (Z.ltb_spec x s), (Z.ltb_spec y s), (Z.ltb_spec s x),
    (Z.ltb_spec s y), (Z.leb_spec s x), (Z.leb_spec s y);
    simpl; solve [done | lia].
Qed.

Lemma domain_of_on_boundary (s x y : Z) :
  x = s \/ y = s -> domain_of s x y = 3.
Proof.
  intros Hxy. unfold domain_of. rewrite !Z.gtb_ltb.
  destruct (Z.ltb_spec x s), (Z.ltb_spec y s), (Z.ltb_spec s x),
    (Z.ltb_spec s y); simpl; solve [done | lia].
Qed.

(** The cell (new_size, y) of the lower left quadrant and the cell
    (new_size, y + new_size) of the lower right one are sent to the same
    slot and the same domain. *)
Lemma boundary_row_same_slot (m : MatStruct) (y : Z) :
  wf m -> 0 <= y -> y + new_size m < og_size m ->
  dom m (new_size m) y = dom m (new_size m) (y + new_size m) /\
  slot_row m (new_size m) y = slot_row m (new_size m) (y + new_size m) /\
  slot_col m (new_size m) y = slot_col m (new_size m) (y + new_size m).
Proof.
  intros (Hog & Hnew & _ & _) Hy Hys.
  pose proof (ceil_half_spec (og_size m)) as Hs. rewrite <- Hnew in Hs.
  unfold slot_row, slot_col, dom.
  rewrite !domain_of_on_boundary by (by left).
  unfold packed_x, packed_y, norm. simpl.
  split_comparisons; repeat split; lia.
Qed.

Lemma set_true_boundary_row_alias (m : MatStruct) (y : Z) :
  wf m -> 0 <= y -> y + new_size m < og_size m ->
  exists m',
    (set_true (new_size m) y ;; get (new_size m) (y + new_size m)) m =
    (m', inr true).
Proof.
  intros Hwf Hy Hys. pose proof Hwf as (Hog & Hnew & Hsh & Hc).
  pose proof (ceil_half_spec (og_size m)) as Hs. rewrite <- Hnew in Hs.
  destruct (boundary_row_same_slot m y Hwf Hy Hys) as (Hd & Hr & Hcl).
  assert (addressable m (new_size m) y) as Haddr
    by (apply valid_addressable; [done | lia..]).
  assert (addressable m (new_size m) (y + new_size m)) as Haddr'
    by (apply valid_addressable; [done | lia..]).
  destruct (addressed_cell m _ _ Hsh Hc Haddr) as (v & Hv & Hn).
  pose proof (domain_of_range (new_size m) (new_size m) y) as Hrange.
  fold (dom m (new_size m) y) in Hrange.
  eexists. unfold bind.
  rewrite (set_true_addressed m _ _ Hsh Hc Haddr v Hv).
  rewrite Hr, Hcl, Hd. rewrite Hr, Hcl in Hv.
  rewrite (get_after_upd m _ _ v) by
    (try done; rewrite <- Hd; by apply force_true_nibble).
  rewrite <- Hd. by rewrite decode_force_true.
Qed.

(** ** Loops over [range] *)

Lemma for_each_seqZ_inv (P : Z -> MatStruct -> Prop) (body : Z -> M unit)
    (n : Z) :
  (forall k m, 0 <= k < n -> P k m ->
     exists m', body k m = (m', inr tt) /\ P (k + 1) m') ->
  forall (len : nat) (a : Z) (m : MatStruct),
    0 <= a -> a + Z.of_nat len <= n -> P a m ->
    exists m', for_each (seqZ a (Z.of_nat len)) body m = (m', inr tt) /\
               P (a + Z.of_nat len) m'.
Proof.
  intros Hbody. induction len as [|len IH]; intros a m Ha Hn HP.
  - exists m. rewrite seqZ_nil by lia. split; [done|].
    by replace (a + Z.of_nat 0) with a by lia.
  - rewrite seqZ_cons by lia.
    replace (Z.pred (Z.of_nat (S len))) with (Z.of_nat len) by lia.
    destruct (Hbody a m) as (m1 & Hrun & HP1); [lia | done |].
    destruct (IH (Z.succ a) m1) as (m2 & Hrest & HP2); [lia | lia | |].
    + by replace (Z.succ a) with (a + 1) by lia.
    + exists m2. simpl. unfold bind. rewrite Hrun. split; [done|].
      by replace (a + Z.of_nat (S len)) with (Z.succ a + Z.of_nat len) by lia.
Qed.

Lemma for_each_range_inv (P : Z -> MatStruct -> Prop) (body : Z -> M unit)
    (n : Z) (m : MatStruct) :
  0 <= n ->
  (forall k m, 0 <= k < n -> P k m ->
     exists m', body k m = (m', inr tt) /\ P (k + 1) m') ->
  P 0 m ->
  exists m', for_each (range n) body m = (m', inr tt) /\ P n m'.
Proof.
  intros Hn Hbody HP. unfold range.
  destruct (for_each_seqZ_inv P body n Hbody (Z.to_nat n) 0 m)
    as (m' & Hrun & HP'); [lia | lia | done |].
  exists m'. rewrite Z2Nat.id in Hrun, HP' by done. by split.
Qed.

Lemma norm_nonneg (s i : Z) : 0 <= i -> norm s i = Z.to_nat i.
Proof. intros Hi. unfold norm. destruct (Z.ltb_spec i 0); [lia|done]. Qed.

(** ** The loops of [all_false] and [all_true] *)

Section Fill.
Variable v : Z.
Hypothesis Hv : nibble v.
Variable s og : Z.

Lemma fill_cell (i k : Z) (m : MatStruct) :
  0 <= i < s -> 0 <= k < s -> filled_before v og s i k m ->
  exists m', write_cell i k v m = (m', inr tt) /\ filled_before v og s i (k + 1) m'.
Proof.
  intros Hi Hk ((Hog & Hs & Hsh & Hc) & Hfill).
  rewrite write_cell_in_shape by (done || lia).
  rewrite Hs, !norm_nonneg, c_int8_small by (done || lia).
  eexists. split; [done|]. split.
  - split; [by rewrite upd_og_size|]. split; [by rewrite upd_new_size|].
    split; [by apply upd_shape_ok | by apply upd_cells_ok].
  - intros i' j' Hi' Hj' Hpos.
    destruct (decide ((i', j') = (Z.to_nat i, Z.to_nat k))) as [Heq|Hne].
    + injection Heq as -> ->.
      destruct (cell_in_shape m (Z.to_nat i) (Z.to_nat k) Hsh)
        as (row & w & Hrow & Hw & _); [lia..|].
      apply cell_upd_same with w. unfold cell. by rewrite Hrow.
    + rewrite cell_upd_other by done. apply Hfill; [done..|].
      destruct Hpos as [?|[? ?]]; [by left|].
      right. split; [done|].
      assert (Z.of_nat j' <> k); [|lia].
      intros <-. apply Hne. f_equal; lia.
Qed.

Lemma fill_row (i : Z) (m : MatStruct) :
  0 <= i < s -> filled_before v og s i 0 m ->
  exists m',
    (n' <- self_new_size ;;
     for_each (range n') (fun j => write_cell i j v)) m = (m', inr tt) /\
    filled_before v og s (i + 1) 0 m'.
Proof.
  intros Hi Hfill. unfold bind at 1. unfold self_new_size.
  pose proof Hfill as ((_ & Hnew & _) & _). rewrite Hnew.
  destruct (for_each_range_inv (filled_before v og s i)
              (fun j => write_cell i j v) s m) as (m' & Hrun & Hm');
    [lia | | done |].
  - intros k m0 Hk Hm0. by apply fill_cell.
  - exists m'. split; [done|]. destruct Hm' as (Hfr & Hcells).
    split; [done|]. intros i' j' Hi' Hj' Hpos.
    apply Hcells; [done..|]. lia.
Qed.

Lemma fill_loops_run (m : MatStruct) :
  framed og s m ->
  exists m',
    fill_loops v m = (m', inr tt) /\ framed og s m' /\
    forall i j : nat,
      (i < Z.to_nat s)%nat -> (j < Z.to_nat s)%nat -> cell m' i j = Some v.
Proof.
  intros Hfr. unfold fill_loops, bind at 1. unfold self_new_size.
  pose proof Hfr as (_ & Hnew & (Hs & _) & _). rewrite Hnew in Hs |- *.
  destruct (for_each_range_inv (fun i => filled_before v og s i 0)
              (fun i => n' <- self_new_size ;;
                 for_each (range n') (fun j => write_cell i j v)) s m)
    as (m' & Hrun & Hm'); [lia | | |].
  - intros i m0 Hi Hm0. by apply fill_row.
  - split; [done|]. intros i' j' _ _ Hpos. lia.
  - exists m'. split; [done|]. destruct Hm' as (Hfr' & Hcells).
    split; [done|]. intros i j Hi Hj. apply Hcells; [done..|]. lia.
Qed.
End Fill.

Lemma all_true_run (m : MatStruct) :
  wf m ->
  exists m', all_true m = (m', inr tt) /\ wf m' /\
    og_size m' = og_size m /\ new_size m' = new_size m /\
    forall i j : nat,
      (i < Z.to_nat (new_size m))%nat -> (j < Z.to_nat (new_size m))%nat ->
      cell m' i j = Some 15.
Proof.
  intros (Hog & Hnew & Hsh & Hc).
  destruct (fill_loops_run 15 ltac:(unfold nibble; lia)
              (new_size m) (og_size m) m) as (m' & Hrun & Hfr & Hcells);
    [done|].
  exists m'. destruct Hfr as (Hog' & Hnew' & Hsh' & Hc').
  split; [exact Hrun|].
  split; [unfold wf; rewrite Hog', Hnew'; done|]. done.
Qed.

Lemma all_false_run (m : MatStruct) :
  wf m ->
  exists m', all_false m = (m', inr tt) /\ wf m' /\
    og_size m' = og_size m /\ new_size m' = new_size m /\
    forall i j : nat,
      (i < Z.to_nat (new_size m))%nat -> (j < Z.to_nat (new_size m))%nat ->
      cell m' i j = Some 0.
Proof.
  intros (Hog & Hnew & Hsh & Hc).
  destruct (fill_loops_run 0 ltac:(unfold nibble; lia)
              (new_size m) (og_size m) m) as (m' & Hrun & Hfr & Hcells);
    [done|].
  exists m'. destruct Hfr as (Hog' & Hnew' & Hsh' & Hc').
  split; [exact Hrun|].
  split; [unfold wf; rewrite Hog', Hnew'; done|]. done.
Qed.

(** ** Nibbles are kept by every method *)

Lemma keeps_ret {A : Type} (a : A) (Q : A -> Prop) : Q a -> keeps (ret a) Q.
Proof. intros Ha m Hm. split; [done|]. simpl. by intros ? [= <-]. Qed.

Lemma keeps_raise {A : Type} (e : exn) (Q : A -> Prop) : keeps (raise e) Q.
Proof. intros m Hm. by split. Qed.

Lemma keeps_lift {A : Type} (r : exn + A) (Q : A -> Prop) :
  (forall a, r = inr a -> Q a) -> keeps (lift r) Q.
Proof. intros Hr m Hm. by split. Qed.

Lemma keeps_bind {A B : Type} (c : M A) (k : A -> M B)
    (Q : A -> Prop) (R : B -> Prop) :
  keeps c Q -> (forall a, Q a -> keeps (k a) R) -> keeps (bind c k) R.
Proof.
  intros Hc Hk m Hm. unfold bind. destruct (Hc m Hm) as (Hm' & Hq).
  destruct (c m) as [m' [e|a]]; simpl in *; [by split|].
  apply Hk; [by apply Hq | done].
Qed.

Lemma keeps_any {A : Type} (c : M A) (Q : A -> Prop) :
  keeps c Q -> keeps c any.
Proof. intros Hc m Hm. split; [by apply Hc | done]. Qed.

Lemma keeps_self_new_size : keeps self_new_size any.
Proof. intros m Hm. by split. Qed.

Lemma keeps_self_og_size : keeps self_og_size any.
Proof. intros m Hm. by split. Qed.

Lemma keeps_read_cell (i j : Z) : keeps (read_cell i j) any.
Proof.
  intros m Hm. unfold read_cell. by destruct (getitem (matrix m) i).
Qed.

Lemma keeps_write_cell (i j v : Z) : nibble v -> keeps (write_cell i j v) any.
Proof.
  intros Hv m Hm. split; [|done]. unfold write_cell, setitem.
  destruct (subscript (length (matrix m)) i) as [e|n]; [done|].
  destruct (matrix m !! n) as [row|] eqn:Hrow; [|done].
  destruct (subscript (length row) j) as [e|k]; [done|]. simpl.
  apply Forall_insert; [done|]. rewrite c_int8_small by done.
  apply Forall_insert; [|done].
  eapply (proj1 (Forall_lookup _ _) Hm); eauto.
Qed.

Lemma keeps_for_each {A : Type} (l : list A) (body : A -> M unit) :
  (forall a, keeps (body a) any) -> keeps (for_each l body) any.
Proof.
  intros Hbody. induction l as [|a l IH]; simpl.
  - by apply keeps_ret.
  - eapply keeps_bind; [apply Hbody | by intros].
Qed.

Lemma getitem_Forall {A : Type} (P : A -> Prop) (l : list A) (i : Z) (a : A) :
  Forall P l -> getitem l i = inr a -> P a.
Proof.
  intros Hl. unfold getitem. destruct (subscript (length l) i) as [e|n]; [done|].
  destruct (l !! n) as [a'|] eqn:Ha; [|done]. intros [= <-].
  eapply (proj1 (Forall_lookup _ _) Hl); eauto.
Qed.

Lemma set_true_table_nibbles (d : Z) : Forall nibble (set_true_table d).
Proof.
  unfold set_true_table.
  destruct (d =? 0); [|destruct (d =? 1); [|destruct (d =? 2)]];
    repeat constructor; discriminate.
Qed.

Lemma set_false_table_nibbles (d : Z) : Forall nibble (set_false_table d).
Proof.
  unfold set_false_table.
  destruct (d =? 0); [|destruct (d =? 1); [|destruct (d =? 2)]];
    repeat constructor; discriminate.
Qed.

Lemma keeps_get_domain (x y : Z) : keeps (get_domain x y) any.
Proof.
  unfold get_domain.
  eapply keeps_bind; [apply keeps_self_new_size|]. intros s _.
  eapply keeps_bind; [apply keeps_self_og_size|]. intros og _.
  destruct ((x >=? og) || (y >=? og)); [apply keeps_raise|].
  destruct ((x <? s) && (y <? s)); [by apply keeps_ret|].
  destruct ((x >? s) && (s >? y)); [by apply keeps_ret|].
  destruct ((x <? s) && (s <? y)); by apply keeps_ret.
Qed.

Lemma keeps_get_compact_val (x y d : Z) : keeps (get_compact_val x y d) any.
Proof.
  unfold get_compact_val.
  eapply keeps_bind; [apply keeps_self_new_size|]. intros s _.
  destruct (d =? 0); [apply keeps_read_cell|].
  destruct (d =? 1); [apply keeps_read_cell|].
  destruct (d =? 2); apply keeps_read_cell.
Qed.

Lemma keeps_pipeline (x y d : Z) (table : list Z) :
  Forall nibble table ->
  keeps (val <- get_compact_val x y d ;;
         v <- lift (getitem table val) ;;
         s <- self_new_size ;;
         write_cell (packed_x s x d) (packed_y s y d) v) any.
Proof.
  intros Htable.
  eapply keeps_bind; [apply keeps_get_compact_val|]. intros val _.
  eapply (keeps_bind _ _ nibble).
  - apply keeps_lift. intros v. by apply getitem_Forall.
  - intros v Hv.
    eapply keeps_bind; [apply keeps_self_new_size|]. intros s _.
    by apply keeps_write_cell.
Qed.

Lemma keeps_set_true (x y : Z) : keeps (set_true x y) any.
Proof.
  intros m Hm.
  pose proof (keeps_bind (get_domain x y) _ any any (keeps_get_domain x y)
    (fun d _ => keeps_pipeline x y d _ (set_true_table_nibbles d)) m Hm) as H.
  by rewrite <- set_true_unfold in H.
Qed.

Lemma keeps_set_false (x y : Z) : keeps (set_false x y) any.
Proof.
  intros m Hm.
  pose proof (keeps_bind (get_domain x y) _ any any (keeps_get_domain x y)
    (fun d _ => keeps_pipeline x y d _ (set_false_table_nibbles d)) m Hm) as H.
  by rewrite <- set_false_unfold in H.
Qed.

Lemma keeps_get (x y : Z) : keeps (get x y) any.
Proof.
  intros m Hm. rewrite get_unfold. revert m Hm.
  eapply keeps_bind; [apply keeps_get_domain|]. intros d _.
  eapply keeps_bind; [apply keeps_get_compact_val|]. intros val _.
  by apply keeps_lift.
Qed.

Lemma keeps_switch (x y : Z) : keeps (switch x y) any.
Proof.
  unfold switch. eapply keeps_bind; [apply keeps_get|].
  intros [] _; [apply keeps_set_false | apply keeps_set_true].
Qed.

Lemma keeps_fill_loops (v : Z) : nibble v -> keeps (fill_loops v) any.
Proof.
  intros Hv. unfold fill_loops.
  eapply keeps_bind; [apply keeps_self_new_size|]. intros n _.
  apply keeps_for_each. intros i.
  eapply keeps_bind; [apply keeps_self_new_size|]. intros n' _.
  apply keeps_for_each. intros j. by apply keeps_write_cell.
Qed.

Lemma init_cells_ok (size : Z) (m : MatStruct) :
  init size = inr m -> cells_ok m.
Proof.
  unfold init. destruct (ceil_half size <? 0); [done|]. intros [= <-].
  apply Forall_replicate, Forall_replicate. unfold nibble. lia.
Qed.

Lemma after_cells_ok (c : call) (m : MatStruct) :
  cells_ok m -> cells_ok (after c m).
Proof.
  intros Hm. destruct c as [x y|x y|x y|x y| |]; simpl.
  - by apply keeps_get.
  - by apply keeps_set_true.
  - by apply keeps_set_false.
  - by apply keeps_switch.
  - apply (keeps_fill_loops 0); [unfold nibble; lia | done].
  - apply (keeps_fill_loops 15); [unfold nibble; lia | done].
Qed.

(** ** Stores through a coordinate, seen through the same coordinate *)

Lemma upd_slot (m : MatStruct) (x y v w : Z) :
  wf m -> addressable m x y ->
  cell m (slot_row m x y) (slot_col m x y) = Some v -> nibble w ->
  let m' := upd m (slot_row m x y) (slot_col m x y) w in
  wf m' /\ addressable m' x y /\
  cell m' (slot_row m' x y) (slot_col m' x y) = Some w /\
  dom m' x y = dom m x y.
Proof.
  intros Hwf Haddr Hv Hw m'. subst m'.
  split; [by apply upd_wf|]. split; [by apply addressable_upd|].
  rewrite slot_row_upd, slot_col_upd, dom_upd.
  split; [by eapply cell_upd_same | done].
Qed.

Lemma switch_flips (m : MatStruct) (x y v : Z) :
  wf m -> addressable m x y ->
  cell m (slot_row m x y) (slot_col m x y) = Some v ->
  exists m' w,
    switch x y m = (m', inr tt) /\ wf m' /\ addressable m' x y /\
    cell m' (slot_row m' x y) (slot_col m' x y) = Some w /\
    dom m' x y = dom m x y /\
    decode (dom m x y) w = negb (decode (dom m x y) v).
Proof.
  intros Hwf Haddr Hv. pose proof Hwf as (_ & _ & Hsh & Hc).
  assert (nibble v) as Hn by (eapply cell_nibble; eauto).
  pose proof (domain_of_range (new_size m) x y) as Hd. fold (dom m x y) in Hd.
  rewrite (switch_addressed m x y Hsh Hc Haddr v Hv).
  set (w := if decode (dom m x y) v then force_false (dom m x y) v
            else force_true (dom m x y) v).
  assert (nibble w) as Hw.
  { subst w. destruct (decode (dom m x y) v);
      [by apply force_false_nibble | by apply force_true_nibble]. }
  destruct (upd_slot m x y v w Hwf Haddr Hv Hw) as (Hwf' & Haddr' & Hv' & Hd').
  eexists _, w. do 5 (split; [done|]).
  subst w. destruct (decode (dom m x y) v) eqn:Hb; simpl.
  - by apply decode_force_false.
  - by apply decode_force_true.
Qed.

Lemma init_mat4 : init 4 = inr mat4.
Proof. reflexivity. Qed.

Lemma init_mat5 : init 5 = inr mat5.
Proof. reflexivity. Qed.

(** * The claims *)

(** C1 (fails on the code).  In the matrix of size 4 the four logical
    cells of packed coordinate (0, 0) are (0, 0), (2, 0), (0, 2) and
    (2, 2), all inside the matrix.  [set_true 2 0], the cell of domain 1,
    turns [get 2 2] (domain 3) and [get 0 2] (domain 2) from false to true;
    [set_false 2 0] after [all_true] turns them to false, and so does
    [switch 2 0]. *)
Theorem set_true_boundary_row_aliases :
  init 4 = inr mat4 /\
  get 2 2 mat4 = (mat4, inr false) /\
  get 0 2 mat4 = (mat4, inr false) /\
  (set_true 2 0 ;; get 2 2) mat4 = (mkMat 4 2 [[4; 0]; [0; 0]], inr true) /\
  (set_true 2 0 ;; get 0 2) mat4 = (mkMat 4 2 [[4; 0]; [0; 0]], inr true) /\
  (all_true ;; get 2 2) mat4 = (mkMat 4 2 [[15; 15]; [15; 15]], inr true) /\
  (all_true ;; set_false 2 0 ;; get 2 2) mat4 =
    (mkMat 4 2 [[11; 15]; [15; 15]], inr false) /\
  (all_true ;; switch 2 0 ;; get 0 2) mat4 =
    (mkMat 4 2 [[11; 15]; [15; 15]], inr false).
Proof. repeat split; reflexivity. Qed.

(** C2 (fails on the code).  In the matrix of size 5, where
    [new_size = 3], the partitioner answers domain 3 for (3, 0), which has
    [x >= new_size] and [y < new_size], and for (0, 3), which has
    [x < new_size] and [y >= new_size]; one step further, at (4, 0) and
    (0, 4), it answers 1 and 2.  The subscripts used at (3, 0) are then
    [0] and [-3]. *)
Theorem get_domain_boundary_size5 :
  init 5 = inr mat5 /\
  get_domain 3 0 mat5 = (mat5, inr 3) /\
  get_domain 0 3 mat5 = (mat5, inr 3) /\
  get_domain 4 0 mat5 = (mat5, inr 1) /\
  get_domain 0 4 mat5 = (mat5, inr 2) /\
  packed_x (new_size mat5) 3 3 = 0 /\
  packed_y (new_size mat5) 0 3 = -3.
Proof. repeat split; reflexivity. Qed.

(** C3.  On every well-formed structure and at every coordinate inside the
    logical matrix, [set_true] followed by [get] returns [True] and
    [set_false] followed by [get] returns [False]. *)
Theorem set_then_get (m : MatStruct) (x y : Z) :
  wf m -> 0 <= x < og_size m -> 0 <= y < og_size m ->
  (exists m', (set_true x y ;; get x y) m = (m', inr true)) /\
  (exists m', (set_false x y ;; get x y) m = (m', inr false)).
Proof.
  intros Hwf Hx Hy. pose proof Hwf as (_ & _ & Hsh & Hc).
  pose proof (valid_addressable m x y Hwf Hx Hy) as Haddr.
  destruct (addressed_cell m x y Hsh Hc Haddr) as (v & Hv & Hn).
  pose proof (domain_of_range (new_size m) x y) as Hd. fold (dom m x y) in Hd.
  split; eexists; unfold bind.
  - rewrite (set_true_addressed m x y Hsh Hc Haddr v Hv).
    rewrite (get_after_upd m x y v) by
      (try done; by apply force_true_nibble).
    by rewrite decode_force_true.
  - rewrite (set_false_addressed m x y Hsh Hc Haddr v Hv).
    rewrite (get_after_upd m x y v) by
      (try done; by apply force_false_nibble).
    by rewrite decode_force_false.
Qed.

Lemma set_then_get_witness :
  (exists m', (set_true 3 1 ;; get 3 1) mat5 = (m', inr true)) /\
  (exists m', (set_false 3 1 ;; get 3 1) mat5 = (m', inr false)).
Proof.
  apply (set_then_get mat5 3 1);
    [apply wfb_sound; reflexivity | simpl; lia | simpl; lia].
Defined.

(** C4.  The example of the [__main__] block: on the matrix of size 5,
    [all_false], seven [switch]es and two [set_true]s leave a structure in
    which [get x y] is [True] exactly when [x = 2] or [y = 2], and
    [compact_to_normal] returns the plus shape. *)
Theorem main_plus (x y : Z) :
  0 <= x < 5 -> 0 <= y < 5 ->
  exists mat m,
    init 5 = inr mat /\
    main_calls mat = (m, inr tt) /\
    get x y m = (m, inr ((x =? 2) || (y =? 2))) /\
    compact_to_normal m = (m, inr plus_shape) /\
    main = inr (m, inr plus_shape).
Proof.
  intros Hx Hy. eexists _, _. split; [reflexivity|].
  split; [vm_compute; reflexivity|].
  split; [|split; vm_compute; reflexivity].
  assert (x = 0 \/ x = 1 \/ x = 2 \/ x = 3 \/ x = 4) as Hxs by lia.
  assert (y = 0 \/ y = 1 \/ y = 2 \/ y = 3 \/ y = 4) as Hys by lia.
  destruct Hxs as [->|[->|[->|[->| ->]]]];
    destruct Hys as [->|[->|[->|[->| ->]]]]; reflexivity.
Qed.

Lemma main_plus_witness :
  exists mat m,
    init 5 = inr mat /\
    main_calls mat = (m, inr tt) /\
    get 2 3 m = (m, inr ((2 =? 2) || (3 =? 2))) /\
    compact_to_normal m = (m, inr plus_shape) /\
    main = inr (m, inr plus_shape).
Proof. apply (main_plus 2 3); lia. Defined.

(** C5 (as stated, fails): the constructor builds a structure for size 0. *)
Lemma init_zero_builds :
  init 0 = inr (mkMat 0 0 []) /\ ~ (exists e, init 0 = inl e).
Proof. split; [reflexivity|]. intros [e He]. discriminate He. Qed.

(** C5 (amended).  For a size of 0 or less the constructor checks nothing
    itself: sizes 0 and -1 give a structure with an empty store, and every
    size from -2 down fails, so that no structure is built; the failure
    is the [ValueError] of a negative array length (as long as the length
    is one the interpreter can pass on, which it is from -2^64 up). *)
Theorem init_nonpositive (size : Z) :
  size <= 0 ->
  (size <= -2 ->
     (exists e, init size = inl e) /\
     (- 2 ^ 64 <= size -> init size = inl ValueError)) /\
  (-1 <= size -> init size = inr (mkMat size 0 [])).
Proof.
  intros Hsize. pose proof (ceil_half_spec size) as Hs. unfold init.
  destruct (Z.ltb_spec (ceil_half size) 0) as [Hneg|Hpos].
  - split; [|lia]. intros _. split; [by exists ValueError | done].
  - split; [lia|]. intros Hlow.
    assert (ceil_half size = 0) as -> by lia.
    by rewrite c_int32_small by lia.
Qed.

Lemma init_nonpositive_witness :
  (-2 <= -2 ->
     (exists e, init (-2) = inl e) /\
     (- 2 ^ 64 <= -2 -> init (-2) = inl ValueError)) /\
  (-1 <= -2 -> init (-2) = inr (mkMat (-2) 0 [])).
Proof. apply (init_nonpositive (-2)). lia. Defined.

(** C6.  On any structure, a coordinate with [x >= og_size] or
    [y >= og_size] makes [get], [set_true], [set_false] and [switch] raise
    [OutOfBound] and hand the structure on as it was. *)
Theorem out_of_range_raises (m : MatStruct) (x y : Z) :
  og_size m <= x \/ og_size m <= y ->
  get x y m = (m, inl OutOfBound) /\
  set_true x y m = (m, inl OutOfBound) /\
  set_false x y m = (m, inl OutOfBound) /\
  switch x y m = (m, inl OutOfBound).
Proof.
  intros Hxy. pose proof (get_domain_out_of_range m x y Hxy) as Hd.
  assert (get x y m = (m, inl OutOfBound)) as Hget
    by (unfold get, bind; by rewrite Hd).
  split; [done|].
  split; [unfold set_true, bind; by rewrite Hd|].
  split; [unfold set_false, bind; by rewrite Hd|].
  unfold switch, bind. by rewrite Hget.
Qed.

Lemma out_of_range_raises_witness :
  get 5 0 mat5 = (mat5, inl OutOfBound) /\
  set_true 5 0 mat5 = (mat5, inl OutOfBound) /\
  set_false 5 0 mat5 = (mat5, inl OutOfBound) /\
  switch 5 0 mat5 = (mat5, inl OutOfBound).
Proof. apply (out_of_range_raises mat5 5 0). left. simpl. lia. Defined.

(** C7.  On every well-formed structure [all_true] returns with 15 in
    every packed cell, after which [get] is [True] at every coordinate of
    the logical matrix; [all_false] returns with 0 in every packed cell,
    after which [get] is [False] there. *)
Theorem fill_then_get (m : MatStruct) (x y : Z) :
  wf m -> 0 <= x < og_size m -> 0 <= y < og_size m ->
  (exists m',
     all_true m = (m', inr tt) /\
     (forall i j : nat,
        (i < Z.to_nat (new_size m))%nat -> (j < Z.to_nat (new_size m))%nat ->
        cell m' i j = Some 15) /\
     get x y m' = (m', inr true)) /\
  (exists m',
     all_false m = (m', inr tt) /\
     (forall i j : nat,
        (i < Z.to_nat (new_size m))%nat -> (j < Z.to_nat (new_size m))%nat ->
        cell m' i j = Some 0) /\
     get x y m' = (m', inr false)).
Proof.
  intros Hwf Hx Hy.
  assert (forall m' w, wf m' -> og_size m' = og_size m ->
            new_size m' = new_size m ->
            (forall i j : nat,
               (i < Z.to_nat (new_size m))%nat ->
               (j < Z.to_nat (new_size m))%nat -> cell m' i j = Some w) ->
            get x y m' = (m', inr (decode (dom m' x y) w))) as Hget.
  { intros m' w Hwf' Hog Hnew Hcells. pose proof Hwf' as (_ & _ & Hsh & Hc).
    assert (addressable m' x y) as Haddr
      by (apply valid_addressable; [done | lia..]).
    apply get_addressed; [done..|].
    destruct Haddr as (_ & _ & Hr & Hcl).
    apply Hcells; rewrite <- Hnew; by apply norm_lt. }
  split.
  - destruct (all_true_run m Hwf) as (m' & Hrun & Hwf' & Hog & Hnew & Hcells).
    exists m'. split; [done|]. split; [done|].
    rewrite (Hget m' 15) by done. do 2 f_equal.
    pose proof (domain_of_range (new_size m') x y) as Hd.
    fold (dom m' x y) in Hd. by each_domain (dom m' x y) Hd.
  - destruct (all_false_run m Hwf) as (m' & Hrun & Hwf' & Hog & Hnew & Hcells).
    exists m'. split; [done|]. split; [done|].
    rewrite (Hget m' 0) by done. do 2 f_equal.
    pose proof (domain_of_range (new_size m') x y) as Hd.
    fold (dom m' x y) in Hd. by each_domain (dom m' x y) Hd.
Qed.

Lemma fill_then_get_witness :
  (exists m',
     all_true mat5 = (m', inr tt) /\
     (forall i j : nat,
        (i < Z.to_nat (new_size mat5))%nat ->
        (j < Z.to_nat (new_size mat5))%nat ->
        cell m' i j = Some 15) /\
     get 3 4 m' = (m', inr true)) /\
  (exists m',
     all_false mat5 = (m', inr tt) /\
     (forall i j : nat,
        (i < Z.to_nat (new_size mat5))%nat ->
        (j < Z.to_nat (new_size mat5))%nat ->
        cell m' i j = Some 0) /\
     get 3 4 m' = (m', inr false)).
Proof.
  apply (fill_then_get mat5 3 4);
    [apply wfb_sound; reflexivity | simpl; lia | simpl; lia].
Defined.

(** C8.  On every well-formed structure and at every coordinate inside the
    logical matrix, two [switch]es in a row return, and [get] then returns
    the boolean it returned before them. *)
Theorem switch_twice (m : MatStruct) (x y : Z) :
  wf m -> 0 <= x < og_size m -> 0 <= y < og_size m ->
  exists b m',
    get x y m = (m, inr b) /\
    (switch x y ;; switch x y ;; get x y) m = (m', inr b).
Proof.
  intros Hwf Hx Hy. pose proof Hwf as (_ & _ & Hsh & Hc).
  pose proof (valid_addressable m x y Hwf Hx Hy) as Haddr.
  destruct (addressed_cell m x y Hsh Hc Haddr) as (v & Hv & Hn).
  destruct (switch_flips m x y v Hwf Haddr Hv)
    as (m1 & w1 & Hrun1 & Hwf1 & Haddr1 & Hv1 & Hd1 & Hb1).
  destruct (switch_flips m1 x y w1 Hwf1 Haddr1 Hv1)
    as (m2 & w2 & Hrun2 & Hwf2 & Haddr2 & Hv2 & Hd2 & Hb2).
  exists (decode (dom m x y) v), m2.
  split; [by apply get_addressed|].
  unfold bind. rewrite Hrun1, Hrun2.
  pose proof Hwf2 as (_ & _ & Hsh2 & Hc2).
  rewrite (get_addressed m2 x y Hsh2 Hc2 Haddr2 w2 Hv2).
  rewrite Hd2, Hd1 in *. rewrite Hb2, Hb1. by rewrite negb_involutive.
Qed.

Lemma switch_twice_witness :
  exists b m',
    get 0 3 mat5 = (mat5, inr b) /\
    (switch 0 3 ;; switch 0 3 ;; get 0 3) mat5 = (m', inr b).
Proof.
  apply (switch_twice mat5 0 3);
    [apply wfb_sound; reflexivity | simpl; lia | simpl; lia].
Defined.

(** C9.  In every structure reached from the constructor by calls of
    [get], [set_true], [set_false], [switch], [all_false] and [all_true],
    with any arguments and whether the calls return or raise, every packed
    cell lies in [0, 15]. *)
Theorem reachable_nibbles (m : MatStruct) :
  reachable m -> Forall (Forall (fun v => 0 <= v <= 15)) (matrix m).
Proof.
  induction 1 as [size m Hinit|c m Hm IH].
  - by apply (init_cells_ok size).
  - by apply after_cells_ok.
Qed.

Lemma reachable_nibbles_witness :
  Forall (Forall (fun v => 0 <= v <= 15))
    (matrix (after (CallSetTrue 2 3) (after (CallSwitch 3 2) mat5))).
Proof.
  apply (reachable_nibbles _).
  apply reach_call, reach_call, (reach_init 5). reflexivity.
Defined.

(** The coordinate (-1, y) is sent where the last row of the upper
    quadrants, (new_size - 1, y), is sent. *)
Lemma negative_row_slot (m : MatStruct) (y : Z) :
  wf m -> 0 <= y < og_size m -> y <> new_size m ->
  addressable m (-1) y /\
  dom m (-1) y = dom m (new_size m - 1) y /\
  slot_row m (-1) y = slot_row m (new_size m - 1) y /\
  slot_col m (-1) y = slot_col m (new_size m - 1) y.
Proof.
  intros (Hog & Hnew & _ & _) Hy Hne.
  pose proof (ceil_half_spec (og_size m)) as Hs. rewrite <- Hnew in Hs.
  assert ((y < new_size m /\ dom m (-1) y = 0 /\
           dom m (new_size m - 1) y = 0) \/
          (new_size m < y /\ dom m (-1) y = 2 /\
           dom m (new_size m - 1) y = 2)) as Hdom.
  { unfold dom, domain_of. split_comparisons; lia. }
  unfold addressable, slot_row, slot_col.
  destruct Hdom as [(Hlt & -> & ->)|(Hlt & -> & ->)];
    unfold packed_x, packed_y, norm; simpl; split_comparisons;
    repeat split; lia.
Qed.

(** The slot and the domain of (new_size - 1, y), spelled out. *)
Lemma last_upper_row_slot (m : MatStruct) (y : Z) :
  wf m -> 0 <= y < og_size m -> y <> new_size m ->
  dom m (new_size m - 1) y = (if y <? new_size m then 0 else 2) /\
  slot_row m (new_size m - 1) y = Z.to_nat (new_size m - 1) /\
  slot_col m (new_size m - 1) y =
    Z.to_nat (if y <? new_size m then y else y - new_size m).
Proof.
  intros (Hog & Hnew & _ & _) Hy Hne.
  pose proof (ceil_half_spec (og_size m)) as Hs. rewrite <- Hnew in Hs.
  assert ((y < new_size m /\ dom m (new_size m - 1) y = 0) \/
          (new_size m < y /\ dom m (new_size m - 1) y = 2)) as Hdom.
  { unfold dom, domain_of. split_comparisons; lia. }
  unfold slot_row, slot_col.
  destruct Hdom as [(Hlt & ->)|(Hlt & ->)];
    unfold packed_x, packed_y, norm; simpl; split_comparisons;
    repeat split; lia.
Qed.

(** C10.  On every well-formed structure the range check of
    [__get_domain] raises exactly for coordinates [>= og_size]; at the
    negative coordinate (-1, y), for [y] inside the matrix and off the
    column [new_size], [get], [set_true], [set_false] and [switch] do not
    raise and do exactly what they do at (new_size - 1, y), another cell of
    the matrix.  They work on the storage slot of that cell, row
    [new_size - 1] of the store: [get] returns what the slot decodes to,
    the three others store the table entry into it, so that, called at
    (-1, y), [set_true] makes [get] at (new_size - 1, y) return [True],
    [set_false] makes it return [False] and [switch] makes it return the
    opposite of before. *)
Theorem negative_row_wraps (m : MatStruct) (y : Z) :
  wf m -> 0 <= y < og_size m -> y <> new_size m ->
  (forall x' y', get_domain x' y' m = (m, inl OutOfBound) <->
                 og_size m <= x' \/ og_size m <= y') /\
  0 <= new_size m - 1 < og_size m /\
  (exists b, get (-1) y m = (m, inr b) /\
             get (new_size m - 1) y m = (m, inr b)) /\
  (exists m', set_true (-1) y m = (m', inr tt) /\
              set_true (new_size m - 1) y m = (m', inr tt)) /\
  (exists m', set_false (-1) y m = (m', inr tt) /\
              set_false (new_size m - 1) y m = (m', inr tt)) /\
  (exists m', switch (-1) y m = (m', inr tt) /\
              switch (new_size m - 1) y m = (m', inr tt)) /\
  (exists v,
     cell m (Z.to_nat (new_size m - 1))
       (Z.to_nat (if y <? new_size m then y else y - new_size m)) = Some v /\
     get (-1) y m =
       (m, inr (decode (if y <? new_size m then 0 else 2) v)) /\
     set_true (-1) y m =
       (upd m (Z.to_nat (new_size m - 1))
          (Z.to_nat (if y <? new_size m then y else y - new_size m))
          (force_true (if y <? new_size m then 0 else 2) v), inr tt) /\
     set_false (-1) y m =
       (upd m (Z.to_nat (new_size m - 1))
          (Z.to_nat (if y <? new_size m then y else y - new_size m))
          (force_false (if y <? new_size m then 0 else 2) v), inr tt) /\
     switch (-1) y m =
       (upd m (Z.to_nat (new_size m - 1))
          (Z.to_nat (if y <? new_size m then y else y - new_size m))
          (if decode (if y <? new_size m then 0 else 2) v
           then force_false (if y <? new_size m then 0 else 2) v
           else force_true (if y <? new_size m then 0 else 2) v), inr tt)) /\
  (exists m', (set_true (-1) y ;; get (new_size m - 1) y) m = (m', inr true)) /\
  (exists m',
     (set_false (-1) y ;; get (new_size m - 1) y) m = (m', inr false)) /\
  (exists b m',
     get (new_size m - 1) y m = (m, inr b) /\
     (switch (-1) y ;; get (new_size m - 1) y) m = (m', inr (negb b))).
Proof.
  intros Hwf Hy Hne. pose proof Hwf as (Hog & Hnew & Hsh & Hc).
  pose proof (ceil_half_spec (og_size m)) as Hs. rewrite <- Hnew in Hs.
  destruct (negative_row_slot m y Hwf Hy Hne) as (Haddr & Hd & Hr & Hcl).
  destruct (last_upper_row_slot m y Hwf Hy Hne) as (Hd' & Hr' & Hcl').
  assert (addressable m (new_size m - 1) y) as Haddr'
    by (apply valid_addressable; [done | lia..]).
  destruct (addressed_cell m _ _ Hsh Hc Haddr') as (v & Hv & Hn).
  assert (cell m (slot_row m (-1) y) (slot_col m (-1) y) = Some v) as Hv0
    by (by rewrite Hr, Hcl).
  pose proof (domain_of_range (new_size m) (new_size m - 1) y) as Hrange.
  fold (dom m (new_size m - 1) y) in Hrange.
  pose proof (get_addressed m _ _ Hsh Hc Haddr v Hv0) as Hget0.
  pose proof (set_true_addressed m _ _ Hsh Hc Haddr v Hv0) as Htrue0.
  pose proof (set_false_addressed m _ _ Hsh Hc Haddr v Hv0) as Hfalse0.
  pose proof (switch_addressed m _ _ Hsh Hc Haddr v Hv0) as Hswitch0.
  rewrite Hd in Hget0. rewrite Hd, Hr, Hcl in Htrue0.
  rewrite Hd, Hr, Hcl in Hfalse0. rewrite Hd, Hr, Hcl in Hswitch0.
  pose proof (get_addressed m _ _ Hsh Hc Haddr' v Hv) as Hget.
  pose proof (set_true_addressed m _ _ Hsh Hc Haddr' v Hv) as Htrue.
  pose proof (set_false_addressed m _ _ Hsh Hc Haddr' v Hv) as Hfalse.
  pose proof (switch_addressed m _ _ Hsh Hc Haddr' v Hv) as Hswitch.
  pose proof (force_true_nibble _ _ Hrange Hn) as Hnt.
  pose proof (force_false_nibble _ _ Hrange Hn) as Hnf.
  split; [|split; [lia|]].
  { intros x' y'. split; [|apply get_domain_out_of_range].
    intros Hraise.
    destruct (Z.le_gt_cases (og_size m) x') as [?|Hx']; [by left|].
    destruct (Z.le_gt_cases (og_size m) y') as [?|Hy']; [by right|].
    by rewrite get_domain_in_range in Hraise by done. }
  split; [eexists; rewrite Hget0, Hget; split; reflexivity|].
  split; [eexists; rewrite Htrue0, Htrue; split; reflexivity|].
  split; [eexists; rewrite Hfalse0, Hfalse; split; reflexivity|].
  split; [eexists; rewrite Hswitch0, Hswitch; split; reflexivity|].
  split.
  { exists v. rewrite Hget0, Htrue0, Hfalse0, Hswitch0.
    rewrite Hd', Hr', Hcl' in *. done. }
  split; [|split].
  - eexists. unfold bind. rewrite Htrue0.
    rewrite (get_after_upd m _ _ v) by done.
    by rewrite decode_force_true.
  - eexists. unfold bind. rewrite Hfalse0.
    rewrite (get_after_upd m _ _ v) by done.
    by rewrite decode_force_false.
  - exists (decode (dom m (new_size m - 1) y) v).
    unfold bind. rewrite Hswitch0, Hget.
    destruct (decode (dom m (new_size m - 1) y) v) eqn:Hb; eexists;
      (split; [done|]); rewrite (get_after_upd m _ _ v) by done.
    + by rewrite decode_force_false.
    + by rewrite decode_force_true.
Qed.

Lemma negative_row_wraps_witness :
  (forall x' y', get_domain x' y' mat5 = (mat5, inl OutOfBound) <->
                 og_size mat5 <= x' \/ og_size mat5 <= y') /\
  0 <= new_size mat5 - 1 < og_size mat5 /\
  (exists b, get (-1) 0 mat5 = (mat5, inr b) /\
             get (new_size mat5 - 1) 0 mat5 = (mat5, inr b)) /\
  (exists m', set_true (-1) 0 mat5 = (m', inr tt) /\
              set_true (new_size mat5 - 1) 0 mat5 = (m', inr tt)) /\
  (exists m', set_false (-1) 0 mat5 = (m', inr tt) /\
              set_false (new_size mat5 - 1) 0 mat5 = (m', inr tt)) /\
  (exists m', switch (-1) 0 mat5 = (m', inr tt) /\
              switch (new_size mat5 - 1) 0 mat5 = (m', inr tt)) /\
  (exists v,
     cell mat5 (Z.to_nat (new_size mat5 - 1))
       (Z.to_nat (if 0 <? new_size mat5 then 0 else 0 - new_size mat5))
       = Some v /\
     get (-1) 0 mat5 =
       (mat5, inr (decode (if 0 <? new_size mat5 then 0 else 2) v)) /\
     set_true (-1) 0 mat5 =
       (upd mat5 (Z.to_nat (new_size mat5 - 1))
          (Z.to_nat (if 0 <? new_size mat5 then 0 else 0 - new_size mat5))
          (force_true (if 0 <? new_size mat5 then 0 else 2) v), inr tt) /\
     set_false (-1) 0 mat5 =
       (upd mat5 (Z.to_nat (new_size mat5 - 1))
          (Z.to_nat (if 0 <? new_size mat5 then 0 else 0 - new_size mat5))
          (force_false (if 0 <? new_size mat5 then 0 else 2) v), inr tt) /\
     switch (-1) 0 mat5 =
       (upd mat5 (Z.to_nat (new_size mat5 - 1))
          (Z.to_nat (if 0 <? new_size mat5 then 0 else 0 - new_size mat5))
          (if decode (if 0 <? new_size mat5 then 0 else 2) v
           then force_false (if 0 <? new_size mat5 then 0 else 2) v
           else force_true (if 0 <? new_size mat5 then 0 else 2) v),
        inr tt)) /\
  (exists m',
     (set_true (-1) 0 ;; get (new_size mat5 - 1) 0) mat5 = (m', inr true)) /\
  (exists m',
     (set_false (-1) 0 ;; get (new_size mat5 - 1) 0) mat5 =
     (m', inr false)) /\
  (exists b m',
     get (new_size mat5 - 1) 0 mat5 = (mat5, inr b) /\
     (switch (-1) 0 ;; get (new_size mat5 - 1) 0) mat5 = (m', inr (negb b))).
Proof.
  apply (negative_row_wraps mat5 0);
    [apply wfb_sound; reflexivity | simpl; lia | simpl; lia].
Defined.

(** * Further properties *)

(** ** The tables *)

(** X1.  Forcing a domain through the tables of [set_true] and
    [set_false]: the entry read is a nibble, [get]'s table of the same
    domain decodes it as forced, and the tables of the other three domains
    decode it as they decode the value before. *)
Theorem tables_force (d v : Z) :
  0 <= d <= 3 -> 0 <= v <= 15 ->
  exists t f,
    getitem (set_true_table d) v = inr t /\ 0 <= t <= 15 /\
    getitem (truth_table d) t = inr true /\
    getitem (set_false_table d) v = inr f /\ 0 <= f <= 15 /\
    getitem (truth_table d) f = inr false /\
    forall d', 0 <= d' <= 3 -> d' <> d ->
      getitem (truth_table d') t = getitem (truth_table d') v /\
      getitem (truth_table d') f = getitem (truth_table d') v.
Proof.
  intros Hd Hv. exists (force_true d v), (force_false d v).
  pose proof (force_true_nibble d v Hd Hv) as Ht.
  pose proof (force_false_nibble d v Hd Hv) as Hf.
  split; [by apply set_true_table_getitem|]. split; [done|].
  split; [by rewrite truth_table_getitem, decode_force_true|].
  split; [by apply set_false_table_getitem|]. split; [done|].
  split; [by rewrite truth_table_getitem, decode_force_false|].
  intros d' Hd' Hne. rewrite !truth_table_getitem by done.
  by rewrite decode_force_true_other, decode_force_false_other.
Qed.

Lemma tables_force_witness :
  exists t f,
    getitem (set_true_table 2) 9 = inr t /\ 0 <= t <= 15 /\
    getitem (truth_table 2) t = inr true /\
    getitem (set_false_table 2) 9 = inr f /\ 0 <= f <= 15 /\
    getitem (truth_table 2) f = inr false /\
    forall d', 0 <= d' <= 3 -> d' <> 2 ->
      getitem (truth_table d') t = getitem (truth_table d') 9 /\
      getitem (truth_table d') f = getitem (truth_table d') 9.
Proof. apply (tables_force 2 9); lia. Defined.

(** X2.  The four truth tables tell the sixteen packed values apart: two
    nibbles that every domain decodes alike are equal. *)
Theorem truth_tables_injective (v w : Z) :
  0 <= v <= 15 -> 0 <= w <= 15 ->
  (forall d, 0 <= d <= 3 ->
     getitem (truth_table d) v = getitem (truth_table d) w) ->
  v = w.
Proof.
  intros Hv Hw Hall.
  pose proof (Hall 0 ltac:(lia)) as H0. pose proof (Hall 1 ltac:(lia)) as H1.
  pose proof (Hall 2 ltac:(lia)) as H2. pose proof (Hall 3 ltac:(lia)) as H3.
  clear Hall.
  each_nibble v Hv; each_nibble w Hw;
    first [reflexivity | discriminate H0 | discriminate H1
          | discriminate H2 | discriminate H3].
Qed.

Lemma truth_tables_injective_witness : 7 = 7.
Proof.
  apply (truth_tables_injective 7 7); [lia | lia | reflexivity].
Defined.

(** ** What a call can do to the structure *)

Lemma write_cell_cases (i j v : Z) (m : MatStruct) :
  (exists e, write_cell i j v m = (m, inl e)) \/
  (exists n k, write_cell i j v m = (upd m n k (c_int8 v), inr tt)).
Proof.
  unfold write_cell, setitem, upd.
  destruct (subscript (length (matrix m)) i) as [e|n]; [left; by exists e|].
  destruct (matrix m !! n) as [row|] eqn:Hrow; [|left; by eexists].
  destruct (subscript (length row) j) as [e|k]; [left; by exists e|].
  right. exists n, k. by rewrite Hrow.
Qed.

Lemma get_domain_read_only (x y : Z) (m : MatStruct) :
  fst (get_domain x y m) = m.
Proof.
  unfold get_domain, bind, self_new_size, self_og_size, raise, ret.
  destruct ((x >=? og_size m) || (y >=? og_size m)); [done|].
  destruct ((x <? new_size m) && (y <? new_size m)); [done|].
  destruct ((x >? new_size m) && (new_size m >? y)); [done|].
  by destruct ((x <? new_size m) && (new_size m <? y)).
Qed.

Lemma get_compact_val_read_only (x y d : Z) (m : MatStruct) :
  fst (get_compact_val x y d m) = m.
Proof.
  rewrite get_compact_val_read. unfold read_cell.
  by destruct (getitem (matrix m) _).
Qed.

Lemma one_store_bind {A : Type} (c : M A) (k : A -> M unit) (m : MatStruct) :
  fst (c m) = m -> (forall a, one_store m (k a m)) ->
  one_store m (bind c k m).
Proof.
  intros Hro Hk. unfold bind.
  destruct (c m) as [m' [e|a]]; simpl in Hro; subst m'; [|apply Hk].
  left. by exists e.
Qed.

Lemma pipeline_cases (x y d : Z) (table : list Z) (m : MatStruct) :
  Forall nibble table ->
  one_store m
    ((val <- get_compact_val x y d ;;
      v <- lift (getitem table val) ;;
      s <- self_new_size ;;
      write_cell (packed_x s x d) (packed_y s y d) v) m).
Proof.
  intros Htable.
  apply one_store_bind; [apply get_compact_val_read_only|]. intros val.
  unfold bind, lift, self_new_size.
  destruct (getitem table val) as [e|v] eqn:Hv; [left; by exists e|].
  pose proof (getitem_Forall _ _ _ _ Htable Hv) as Hn.
  destruct (write_cell_cases (packed_x (new_size m) x d)
              (packed_y (new_size m) y d) v m) as [[e ->]|(n & k & ->)].
  - left. by exists e.
  - right. exists n, k, v. by rewrite c_int8_small.
Qed.

Lemma get_read_only (x y : Z) (m : MatStruct) : fst (get x y m) = m.
Proof.
  rewrite get_unfold. unfold bind.
  pose proof (get_domain_read_only x y m) as Hro.
  destruct (get_domain x y m) as [m' [e|d]]; simpl in Hro; subst m'; [done|].
  pose proof (get_compact_val_read_only x y d m) as Hro.
  by destruct (get_compact_val x y d m) as [m' [e|val]]; simpl in Hro; subst m'.
Qed.

Lemma set_true_cases (x y : Z) (m : MatStruct) : one_store m (set_true x y m).
Proof.
  rewrite set_true_unfold.
  apply one_store_bind; [apply get_domain_read_only|]. intros d.
  apply pipeline_cases, set_true_table_nibbles.
Qed.

Lemma set_false_cases (x y : Z) (m : MatStruct) :
  one_store m (set_false x y m).
Proof.
  rewrite set_false_unfold.
  apply one_store_bind; [apply get_domain_read_only|]. intros d.
  apply pipeline_cases, set_false_table_nibbles.
Qed.

Lemma switch_cases (x y : Z) (m : MatStruct) : one_store m (switch x y m).
Proof.
  unfold switch. apply one_store_bind; [apply get_read_only|].
  intros []; [apply set_false_cases | apply set_true_cases].
Qed.

(** X3.  On any structure and for any arguments: [get] hands the structure
    on as it was, and [set_true], [set_false] and [switch], when they
    raise, have stored nothing. *)
Theorem raise_stores_nothing (m : MatStruct) (x y : Z) :
  fst (get x y m) = m /\
  (forall e m', set_true x y m = (m', inl e) -> m' = m) /\
  (forall e m', set_false x y m = (m', inl e) -> m' = m) /\
  (forall e m', switch x y m = (m', inl e) -> m' = m).
Proof.
  split; [apply get_read_only|].
  split; [|split]; intros e m' Hrun.
  - destruct (set_true_cases x y m) as [[e' He]|(n & k & w & _ & He)];
      congruence.
  - destruct (set_false_cases x y m) as [[e' He]|(n & k & w & _ & He)];
      congruence.
  - destruct (switch_cases x y m) as [[e' He]|(n & k & w & _ & He)];
      congruence.
Qed.

(** ** The slot and the domain of a coordinate, in closed form *)

Lemma mod_below_twice (s x : Z) :
  0 <= x < 2 * s ->
  (x < s /\ x mod s = x) \/ (s <= x /\ x mod s = x - s).
Proof.
  intros Hx. destruct (Z.lt_ge_cases x s) as [Hlt|Hge].
  - left. split; [done|]. apply Z.mod_small. lia.
  - right. split; [done|]. symmetry. apply (Z.mod_unique_pos x s 1 (x - s)); lia.
Qed.

Lemma domain_of_domain_at (s x y : Z) : domain_of s x y = domain_at s x y.
Proof.
  unfold domain_at.
  destruct (Z.eqb_spec x s) as [Hx|Hx]; simpl;
    [by apply domain_of_on_boundary; left|].
  destruct (Z.eqb_spec y s) as [Hy|Hy]; simpl;
    [by apply domain_of_on_boundary; right|].
  by apply domain_of_off_boundary.
Qed.

Lemma slot_mod (m : MatStruct) (x y : Z) :
  wf m -> 0 <= x < og_size m -> 0 <= y < og_size m ->
  slot_row m x y = Z.to_nat (x mod new_size m) /\
  slot_col m x y = Z.to_nat (y mod new_size m).
Proof.
  intros (Hog & Hnew & _ & _) Hx Hy.
  pose proof (ceil_half_spec (og_size m)) as Hs. rewrite <- Hnew in Hs.
  destruct (mod_below_twice (new_size m) x) as [[Hxs ->]|[Hxs ->]]; [lia|..];
    destruct (mod_below_twice (new_size m) y) as [[Hys ->]|[Hys ->]];
    try lia;
    unfold slot_row, slot_col, dom, domain_of; rewrite !Z.gtb_ltb;
    destruct (Z.ltb_spec x (new_size m)); try lia;
    destruct (Z.ltb_spec y (new_size m)); try lia;
    destruct (Z.ltb_spec (new_size m) x);
    destruct (Z.ltb_spec (new_size m) y);
    simpl; unfold packed_x, packed_y; simpl; unfold norm;
    split_comparisons; split; lia.
Qed.

(** X4.  The methods in closed form.  On a well-formed structure and at a
    coordinate inside the logical matrix, every method works on the packed
    cell ([x mod new_size], [y mod new_size]), through domain 3 on the row
    and on the column [new_size] and through the domain of the quadrant
    elsewhere: [get] decodes the cell, [set_true] and [set_false] replace it
    by the forced value and [switch] by the forced opposite, and no other
    cell or field changes. *)
Theorem methods_closed_form (m : MatStruct) (x y : Z) :
  wf m -> 0 <= x < og_size m -> 0 <= y < og_size m ->
  let s := new_size m in
  let d := domain_at s x y in
  let i := Z.to_nat (x mod s) in
  let j := Z.to_nat (y mod s) in
  exists v,
    cell m i j = Some v /\ 0 <= v <= 15 /\
    get x y m = (m, inr (decode d v)) /\
    set_true x y m = (upd m i j (force_true d v), inr tt) /\
    set_false x y m = (upd m i j (force_false d v), inr tt) /\
    switch x y m =
      (upd m i j (if decode d v then force_false d v else force_true d v),
       inr tt).
Proof.
  intros Hwf Hx Hy s d i j. pose proof Hwf as (_ & _ & Hsh & Hc).
  pose proof (valid_addressable m x y Hwf Hx Hy) as Haddr.
  destruct (slot_mod m x y Hwf Hx Hy) as (Hr & Hcl).
  destruct (addressed_cell m x y Hsh Hc Haddr) as (v & Hv & Hn).
  assert (dom m x y = d) as Hd by apply domain_of_domain_at.
  exists v. subst i j d s. rewrite <- Hr, <- Hcl, <- Hd.
  split; [done|]. split; [done|].
  split; [by apply get_addressed|].
  split; [by apply set_true_addressed|].
  split; [by apply set_false_addressed | by apply switch_addressed].
Qed.

Lemma methods_closed_form_witness :
  let s := new_size mat5 in
  let d := domain_at s 3 1 in
  let i := Z.to_nat (3 mod s) in
  let j := Z.to_nat (1 mod s) in
  exists v,
    cell mat5 i j = Some v /\ 0 <= v <= 15 /\
    get 3 1 mat5 = (mat5, inr (decode d v)) /\
    set_true 3 1 mat5 = (upd mat5 i j (force_true d v), inr tt) /\
    set_false 3 1 mat5 = (upd mat5 i j (force_false d v), inr tt) /\
    switch 3 1 mat5 =
      (upd mat5 i j (if decode d v then force_false d v else force_true d v),
       inr tt).
Proof.
  apply (methods_closed_form mat5 3 1);
    [apply wfb_sound; reflexivity | simpl; lia | simpl; lia].
Defined.

(** ** Cells that share nothing, and cells that share everything *)

Lemma slot_distinct_off_boundary (m : MatStruct) (x y x' y' : Z) :
  wf m -> 0 <= x < og_size m -> 0 <= y < og_size m ->
  0 <= x' < og_size m -> 0 <= y' < og_size m ->
  x <> new_size m -> y <> new_size m -> (x', y') <> (x, y) ->
  (slot_row m x' y', slot_col m x' y', dom m x' y') <>
  (slot_row m x y, slot_col m x y, dom m x y).
Proof.
  intros Hwf Hx Hy Hx' Hy' Hxs Hys Hne.
  destruct (slot_mod m x y Hwf Hx Hy) as (-> & ->).
  destruct (slot_mod m x' y' Hwf Hx' Hy') as (-> & ->).
  unfold dom. rewrite !domain_of_domain_at.
  destruct Hwf as (Hog & Hnew & _ & _).
  pose proof (ceil_half_spec (og_size m)) as Hs. rewrite <- Hnew in Hs.
  intros [= Hr Hc Hd]. apply Hne.
  destruct (mod_below_twice (new_size m) x) as [[Hx1 Hx2]|[Hx1 Hx2]]; [lia|..];
    destruct (mod_below_twice (new_size m) y) as [[Hy1 Hy2]|[Hy1 Hy2]];
    try lia;
    destruct (mod_below_twice (new_size m) x') as [[Hx3 Hx4]|[Hx3 Hx4]];
    try lia;
    destruct (mod_below_twice (new_size m) y') as [[Hy3 Hy4]|[Hy3 Hy4]];
    try lia;
    rewrite Hx2, Hx4 in Hr; rewrite Hy2, Hy4 in Hc;
    unfold domain_at, quadrant in Hd;
    destruct (Z.eqb_spec x (new_size m)); try lia;
    destruct (Z.eqb_spec y (new_size m)); try lia;
    destruct (Z.eqb_spec x' (new_size m));
    destruct (Z.eqb_spec y' (new_size m));
    destruct (Z.ltb_spec x (new_size m)); try lia;
    destruct (Z.ltb_spec y (new_size m)); try lia;
    destruct (Z.ltb_spec x' (new_size m)); try lia;
    destruct (Z.ltb_spec y' (new_size m)); try lia;
    destruct (Z.leb_spec (new_size m) x); try lia;
    destruct (Z.leb_spec (new_size m) x'); try lia;
    destruct (Z.leb_spec (new_size m) y); try lia;
    destruct (Z.leb_spec (new_size m) y'); try lia;
    simpl in Hd; try discriminate Hd; f_equal; lia.
Qed.

Lemma switch_frame (m : MatStruct) (x y x' y' : Z) :
  wf m -> 0 <= x < og_size m -> 0 <= y < og_size m ->
  0 <= x' < og_size m -> 0 <= y' < og_size m ->
  (slot_row m x' y', slot_col m x' y', dom m x' y') <>
  (slot_row m x y, slot_col m x y, dom m x y) ->
  snd ((switch x y ;; get x' y') m) = snd (get x' y' m).
Proof.
  intros Hwf Hx Hy Hx' Hy' Hne. pose proof Hwf as (_ & _ & Hsh & Hc).
  pose proof (valid_addressable m x y Hwf Hx Hy) as Haddr.
  destruct (addressed_cell m x y Hsh Hc Haddr) as (v & Hv & Hn).
  pose proof (set_true_frame m x y x' y' Hwf Hx Hy Hx' Hy' Hne) as Ht.
  pose proof (set_false_frame m x y x' y' Hwf Hx Hy Hx' Hy' Hne) as Hf.
  unfold switch, bind in *.
  rewrite (get_addressed m x y Hsh Hc Haddr v Hv).
  by destruct (decode (dom m x y) v).
Qed.

(** X5.  A cell off the row and the column [new_size] is a cell of its
    own: no store through another coordinate of the matrix changes what
    [get] returns for it, and no store through it changes what [get]
    returns for another coordinate. *)
Theorem off_boundary_cell_is_private (m : MatStruct) (x y x' y' : Z) :
  wf m -> 0 <= x < og_size m -> 0 <= y < og_size m ->
  0 <= x' < og_size m -> 0 <= y' < og_size m ->
  x <> new_size m -> y <> new_size m -> (x', y') <> (x, y) ->
  snd ((set_true x' y' ;; get x y) m) = snd (get x y m) /\
  snd ((set_false x' y' ;; get x y) m) = snd (get x y m) /\
  snd ((switch x' y' ;; get x y) m) = snd (get x y m) /\
  snd ((set_true x y ;; get x' y') m) = snd (get x' y' m) /\
  snd ((set_false x y ;; get x' y') m) = snd (get x' y' m) /\
  snd ((switch x y ;; get x' y') m) = snd (get x' y' m).
Proof.
  intros Hwf Hx Hy Hx' Hy' Hxs Hys Hne.
  pose proof (slot_distinct_off_boundary m x y x' y'
                Hwf Hx Hy Hx' Hy' Hxs Hys Hne) as Hslot.
  assert ((slot_row m x y, slot_col m x y, dom m x y) <>
          (slot_row m x' y', slot_col m x' y', dom m x' y')) as Hslot'
    by congruence.
  split; [by apply set_true_frame|]. split; [by apply set_false_frame|].
  split; [by apply switch_frame|]. split; [by apply set_true_frame|].
  split; [by apply set_false_frame | by apply switch_frame].
Qed.

Lemma off_boundary_cell_is_private_witness :
  snd ((set_true 4 1 ;; get 1 1) mat5) = snd (get 1 1 mat5) /\
  snd ((set_false 4 1 ;; get 1 1) mat5) = snd (get 1 1 mat5) /\
  snd ((switch 4 1 ;; get 1 1) mat5) = snd (get 1 1 mat5) /\
  snd ((set_true 1 1 ;; get 4 1) mat5) = snd (get 4 1 mat5) /\
  snd ((set_false 1 1 ;; get 4 1) mat5) = snd (get 4 1 mat5) /\
  snd ((switch 1 1 ;; get 4 1) mat5) = snd (get 4 1 mat5).
Proof.
  apply (off_boundary_cell_is_private mat5 1 1 4 1);
    [apply wfb_sound; reflexivity | simpl; lia | simpl; lia | simpl; lia
    | simpl; lia | simpl; lia | simpl; lia | congruence].
Defined.

(** ** Stores in a row at one coordinate *)

Lemma force_after_force (d v : Z) :
  0 <= d <= 3 -> 0 <= v <= 15 ->
  force_true d (force_true d v) = force_true d v /\
  force_true d (force_false d v) = force_true d v /\
  force_false d (force_true d v) = force_false d v /\
  force_false d (force_false d v) = force_false d v.
Proof.
  intros Hd Hv. each_domain d Hd; each_nibble v Hv; repeat split; reflexivity.
Qed.

Lemma upd_upd (m : MatStruct) (i j : nat) (a b : Z) :
  upd (upd m i j a) i j b = upd m i j b.
Proof.
  unfold upd. destruct (matrix m !! i) as [row|] eqn:Hrow; simpl.
  - rewrite list_lookup_insert_eq by (eapply lookup_lt_Some; eauto). simpl.
    by rewrite !list_insert_insert_eq.
  - by rewrite Hrow.
Qed.

(** X6.  At a coordinate inside the logical matrix the last store wins:
    [set_true] or [set_false] after an earlier [set_true] or [set_false]
    at the same coordinate leaves exactly the structure it leaves when
    called alone; in particular each of them is idempotent. *)
Theorem last_store_wins (m : MatStruct) (x y : Z) :
  wf m -> 0 <= x < og_size m -> 0 <= y < og_size m ->
  (set_true x y ;; set_true x y) m = set_true x y m /\
  (set_false x y ;; set_true x y) m = set_true x y m /\
  (set_true x y ;; set_false x y) m = set_false x y m /\
  (set_false x y ;; set_false x y) m = set_false x y m.
Proof.
  intros Hwf Hx Hy. pose proof Hwf as (_ & _ & Hsh & Hc).
  pose proof (valid_addressable m x y Hwf Hx Hy) as Haddr.
  destruct (addressed_cell m x y Hsh Hc Haddr) as (v & Hv & Hn).
  pose proof (domain_of_range (new_size m) x y) as Hd. fold (dom m x y) in Hd.
  destruct (force_after_force (dom m x y) v Hd Hn) as (Htt & Hft & Htf & Hff).
  pose proof (force_true_nibble _ _ Hd Hn) as Hnt.
  pose proof (force_false_nibble _ _ Hd Hn) as Hnf.
  destruct (upd_slot m x y v _ Hwf Haddr Hv Hnt)
    as ((_ & _ & Hsh1 & Hc1) & Haddr1 & Hv1 & Hd1).
  destruct (upd_slot m x y v _ Hwf Haddr Hv Hnf)
    as ((_ & _ & Hsh2 & Hc2) & Haddr2 & Hv2 & Hd2).
  unfold bind.
  rewrite (set_true_addressed m x y Hsh Hc Haddr v Hv).
  rewrite (set_false_addressed m x y Hsh Hc Haddr v Hv).
  rewrite (set_true_addressed _ x y Hsh1 Hc1 Haddr1 _ Hv1).
  rewrite (set_true_addressed _ x y Hsh2 Hc2 Haddr2 _ Hv2).
  rewrite (set_false_addressed _ x y Hsh1 Hc1 Haddr1 _ Hv1).
  rewrite (set_false_addressed _ x y Hsh2 Hc2 Haddr2 _ Hv2).
  rewrite !slot_row_upd, !slot_col_upd, !dom_upd, !upd_upd.
  by rewrite Htt, Hft, Htf, Hff.
Qed.

Lemma last_store_wins_witness :
  (set_true 4 3 ;; set_true 4 3) mat5 = set_true 4 3 mat5 /\
  (set_false 4 3 ;; set_true 4 3) mat5 = set_true 4 3 mat5 /\
  (set_true 4 3 ;; set_false 4 3) mat5 = set_false 4 3 mat5 /\
  (set_false 4 3 ;; set_false 4 3) mat5 = set_false 4 3 mat5.
Proof.
  apply (last_store_wins mat5 4 3);
    [apply wfb_sound; reflexivity | simpl; lia | simpl; lia].
Defined.

(** X7.  At a coordinate inside the logical matrix [switch] returns and
    negates what [get] returns there. *)
Theorem switch_negates (m : MatStruct) (x y : Z) :
  wf m -> 0 <= x < og_size m -> 0 <= y < og_size m ->
  exists b m',
    get x y m = (m, inr b) /\
    switch x y m = (m', inr tt) /\
    get x y m' = (m', inr (negb b)).
Proof.
  intros Hwf Hx Hy. pose proof Hwf as (_ & _ & Hsh & Hc).
  pose proof (valid_addressable m x y Hwf Hx Hy) as Haddr.
  destruct (addressed_cell m x y Hsh Hc Haddr) as (v & Hv & Hn).
  destruct (switch_flips m x y v Hwf Haddr Hv)
    as (m1 & w1 & Hrun1 & Hwf1 & Haddr1 & Hv1 & Hd1 & Hb1).
  exists (decode (dom m x y) v), m1.
  split; [by apply get_addressed|]. split; [done|].
  pose proof Hwf1 as (_ & _ & Hsh1 & Hc1).
  rewrite (get_addressed m1 x y Hsh1 Hc1 Haddr1 w1 Hv1).
  by rewrite Hd1, Hb1.
Qed.

Lemma switch_negates_witness :
  exists b m',
    get 3 3 mat5 = (mat5, inr b) /\
    switch 3 3 mat5 = (m', inr tt) /\
    get 3 3 m' = (m', inr (negb b)).
Proof.
  apply (switch_negates mat5 3 3);
    [apply wfb_sound; reflexivity | simpl; lia | simpl; lia].
Defined.

(** ** The row and the column [new_size] *)

Lemma boundary_column_same_slot (m : MatStruct) (x : Z) :
  wf m -> 0 <= x -> x + new_size m < og_size m ->
  dom m x (new_size m) = dom m (x + new_size m) (new_size m) /\
  slot_row m x (new_size m) = slot_row m (x + new_size m) (new_size m) /\
  slot_col m x (new_size m) = slot_col m (x + new_size m) (new_size m).
Proof.
  intros (Hog & Hnew & _ & _) Hx Hxs.
  pose proof (ceil_half_spec (og_size m)) as Hs. rewrite <- Hnew in Hs.
  unfold slot_row, slot_col, dom.
  rewrite !domain_of_on_boundary by (by right).
  unfold packed_x, packed_y, norm. simpl.
  split_comparisons; repeat split; lia.
Qed.

Lemma same_slot_same_methods (m : MatStruct) (x y x' y' : Z) :
  wf m -> addressable m x y -> addressable m x' y' ->
  dom m x y = dom m x' y' ->
  slot_row m x y = slot_row m x' y' ->
  slot_col m x y = slot_col m x' y' ->
  get x y m = get x' y' m /\
  set_true x y m = set_true x' y' m /\
  set_false x y m = set_false x' y' m /\
  switch x y m = switch x' y' m.
Proof.
  intros Hwf Haddr Haddr' Hd Hr Hcl. pose proof Hwf as (_ & _ & Hsh & Hc).
  destruct (addressed_cell m x y Hsh Hc Haddr) as (v & Hv & _).
  assert (cell m (slot_row m x' y') (slot_col m x' y') = Some v) as Hv'
    by (by rewrite <- Hr, <- Hcl).
  rewrite (get_addressed m _ _ Hsh Hc Haddr v Hv).
  rewrite (get_addressed m _ _ Hsh Hc Haddr' v Hv').
  rewrite (set_true_addressed m _ _ Hsh Hc Haddr v Hv).
  rewrite (set_true_addressed m _ _ Hsh Hc Haddr' v Hv').
  rewrite (set_false_addressed m _ _ Hsh Hc Haddr v Hv).
  rewrite (set_false_addressed m _ _ Hsh Hc Haddr' v Hv').
  rewrite (switch_addressed m _ _ Hsh Hc Haddr v Hv).
  rewrite (switch_addressed m _ _ Hsh Hc Haddr' v Hv').
  by rewrite Hd, Hr, Hcl.
Qed.

(** X8.  On the row [new_size] the cells (new_size, t) and
    (new_size, t + new_size) are one cell, and so are (t, new_size) and
    (t + new_size, new_size) on the column [new_size]: each method, called
    at one or at the other, returns the same and leaves the same
    structure. *)
Theorem boundary_cells_coincide (m : MatStruct) (t : Z) :
  wf m -> 0 <= t -> t + new_size m < og_size m ->
  let s := new_size m in
  (get s t m = get s (t + s) m /\
   set_true s t m = set_true s (t + s) m /\
   set_false s t m = set_false s (t + s) m /\
   switch s t m = switch s (t + s) m) /\
  (get t s m = get (t + s) s m /\
   set_true t s m = set_true (t + s) s m /\
   set_false t s m = set_false (t + s) s m /\
   switch t s m = switch (t + s) s m).
Proof.
  intros Hwf Ht Hts s. subst s. pose proof Hwf as (Hog & Hnew & _ & _).
  pose proof (ceil_half_spec (og_size m)) as Hs. rewrite <- Hnew in Hs.
  split.
  - destruct (boundary_row_same_slot m t Hwf Ht Hts) as (Hd & Hr & Hcl).
    apply same_slot_same_methods; try done;
      apply valid_addressable; (done || lia).
  - destruct (boundary_column_same_slot m t Hwf Ht Hts) as (Hd & Hr & Hcl).
    apply same_slot_same_methods; try done;
      apply valid_addressable; (done || lia).
Qed.

Lemma boundary_cells_coincide_witness :
  let s := new_size mat5 in
  (get s 1 mat5 = get s (1 + s) mat5 /\
   set_true s 1 mat5 = set_true s (1 + s) mat5 /\
   set_false s 1 mat5 = set_false s (1 + s) mat5 /\
   switch s 1 mat5 = switch s (1 + s) mat5) /\
  (get 1 s mat5 = get (1 + s) s mat5 /\
   set_true 1 s mat5 = set_true (1 + s) s mat5 /\
   set_false 1 s mat5 = set_false (1 + s) s mat5 /\
   switch 1 s mat5 = switch (1 + s) s mat5).
Proof.
  apply (boundary_cells_coincide mat5 1);
    [apply wfb_sound; reflexivity | lia | simpl; lia].
Defined.

(** ** Negative coordinates *)

Lemma wrapped_slot (m : MatStruct) (x y : Z) :
  wf m ->
  - new_size m <= x < og_size m -> - new_size m <= y < og_size m ->
  (x < 0 -> y <> new_size m) -> (y < 0 -> x <> new_size m) ->
  let x' := wrap_index (new_size m) x in
  let y' := wrap_index (new_size m) y in
  (0 <= x' < og_size m /\ 0 <= y' < og_size m) /\
  addressable m x y /\
  dom m x y = dom m x' y' /\
  slot_row m x y = slot_row m x' y' /\
  slot_col m x y = slot_col m x' y'.
Proof.
  intros (Hog & Hnew & _ & _) Hx Hy Hxy Hyx x' y'. subst x' y'.
  pose proof (ceil_half_spec (og_size m)) as Hs. rewrite <- Hnew in Hs.
  unfold wrap_index, addressable, slot_row, slot_col, dom, domain_of.
  rewrite !Z.gtb_ltb.
  destruct (Z.ltb_spec x 0); destruct (Z.ltb_spec y 0);
    repeat match goal with
      | |- context [?a <? new_size m] =>
          destruct (Z.ltb_spec a (new_size m)); try lia
      | |- context [new_size m <? ?a] =>
          destruct (Z.ltb_spec (new_size m) a); try lia
      end;
    simpl; unfold packed_x, packed_y; simpl; unfold norm;
    split_comparisons; repeat split; lia.
Qed.

(** X9.  A negative coordinate is not refused.  On a well-formed structure
    a coordinate with [x] or [y] in [-new_size, 0) is served as the
    coordinate with [new_size] added to the negative components, a cell of
    the upper or left quadrants: each method returns the same and leaves
    the same structure.  (Excepted: [y = new_size] beside a negative [x],
    and [x = new_size] beside a negative [y].) *)
Theorem negative_coordinates_wrap (m : MatStruct) (x y : Z) :
  wf m ->
  - new_size m <= x < og_size m -> - new_size m <= y < og_size m ->
  x < 0 \/ y < 0 ->
  (x < 0 -> y <> new_size m) -> (y < 0 -> x <> new_size m) ->
  let x' := wrap_index (new_size m) x in
  let y' := wrap_index (new_size m) y in
  (0 <= x' < og_size m /\ 0 <= y' < og_size m /\ (x', y') <> (x, y)) /\
  (exists b, get x y m = (m, inr b)) /\
  get x y m = get x' y' m /\
  set_true x y m = set_true x' y' m /\
  set_false x y m = set_false x' y' m /\
  switch x y m = switch x' y' m.
Proof.
  intros Hwf Hx Hy Hneg Hxy Hyx x' y'.
  destruct (wrapped_slot m x y Hwf Hx Hy Hxy Hyx)
    as ((Hx' & Hy') & Haddr & Hd & Hr & Hcl).
  fold x' y' in Hx', Hy', Hd, Hr, Hcl.
  pose proof Hwf as (_ & _ & Hsh & Hc).
  split.
  { split; [done|]. split; [done|]. intros [= Hex Hey]. lia. }
  split.
  { destruct (addressed_cell m x y Hsh Hc Haddr) as (v & Hv & _).
    eexists. by apply get_addressed. }
  apply same_slot_same_methods; try done. by apply valid_addressable.
Qed.

Lemma negative_coordinates_wrap_witness :
  let x' := wrap_index (new_size mat5) (-2) in
  let y' := wrap_index (new_size mat5) 4 in
  (0 <= x' < og_size mat5 /\ 0 <= y' < og_size mat5 /\ (x', y') <> (-2, 4)) /\
  (exists b, get (-2) 4 mat5 = (mat5, inr b)) /\
  get (-2) 4 mat5 = get x' y' mat5 /\
  set_true (-2) 4 mat5 = set_true x' y' mat5 /\
  set_false (-2) 4 mat5 = set_false x' y' mat5 /\
  switch (-2) 4 mat5 = switch x' y' mat5.
Proof.
  apply (negative_coordinates_wrap mat5 (-2) 4);
    [apply wfb_sound; reflexivity | simpl; lia | simpl; lia | lia
    | simpl; lia | simpl; lia].
Defined.

Lemma subscript_out_of_range (len : nat) (i : Z) :
  i < - Z.of_nat len \/ Z.of_nat len <= i ->
  subscript len i = inl IndexError.
Proof.
  intros Hi. unfold subscript. cbv zeta.
  destruct (Z.ltb_spec i 0) as [Hneg|Hpos].
  - destruct (Z.ltb_spec (i + Z.of_nat len) 0); [done|lia].
  - destruct (Z.ltb_spec i 0); [lia|].
    destruct (Z.leb_spec (Z.of_nat len) i); [done|lia].
Qed.

Lemma read_cell_index_error (m : MatStruct) (i j : Z) :
  shape_ok m ->
  i < - new_size m \/ new_size m <= i \/
  j < - new_size m \/ new_size m <= j ->
  read_cell i j m = (m, inl IndexError).
Proof.
  intros Hsh Hij. pose proof Hsh as (Hs & Hlen & Hrows).
  unfold read_cell, getitem.
  destruct (Z.lt_ge_cases i (- new_size m)) as [Hlo|Hlo];
    [by rewrite subscript_out_of_range by lia|].
  destruct (Z.lt_ge_cases i (new_size m)) as [Hhi|Hhi];
    [|by rewrite subscript_out_of_range by lia].
  rewrite subscript_in_range by lia.
  destruct (matrix m !! _) as [row|] eqn:Hrow; [|done].
  pose proof (proj1 (Forall_lookup _ _) Hrows _ _ Hrow) as Hrl.
  simpl in Hrl. by rewrite subscript_out_of_range by lia.
Qed.

Lemma methods_index_error (m : MatStruct) (x y : Z) :
  shape_ok m -> x < og_size m -> y < og_size m ->
  packed_x (new_size m) x (dom m x y) < - new_size m \/
  new_size m <= packed_x (new_size m) x (dom m x y) \/
  packed_y (new_size m) y (dom m x y) < - new_size m \/
  new_size m <= packed_y (new_size m) y (dom m x y) ->
  get x y m = (m, inl IndexError) /\
  set_true x y m = (m, inl IndexError) /\
  set_false x y m = (m, inl IndexError) /\
  switch x y m = (m, inl IndexError).
Proof.
  intros Hsh Hx Hy Hout.
  assert (get_compact_val x y (dom m x y) m = (m, inl IndexError)) as Hval
    by (rewrite get_compact_val_read; by apply read_cell_index_error).
  assert (get x y m = (m, inl IndexError)) as Hget.
  { rewrite get_unfold. unfold bind.
    by rewrite get_domain_in_range, Hval by done. }
  split; [done|].
  split; [rewrite set_true_unfold; unfold bind;
          by rewrite get_domain_in_range, Hval by done|].
  split; [rewrite set_false_unfold; unfold bind;
          by rewrite get_domain_in_range, Hval by done|].
  unfold switch, bind. by rewrite Hget.
Qed.

(** X10.  Where a negative coordinate is refused, it is with [IndexError].
    On a well-formed structure, for [x] and [y] below [og_size]: if one of
    them is below [-new_size], or one is negative and the other is
    [new_size], every method raises [IndexError] and leaves the structure
    as it was. *)
Theorem negative_coordinates_index_error (m : MatStruct) (x y : Z) :
  wf m -> x < og_size m -> y < og_size m ->
  x < - new_size m \/ y < - new_size m \/
  (x < 0 /\ y = new_size m) \/ (y < 0 /\ x = new_size m) ->
  get x y m = (m, inl IndexError) /\
  set_true x y m = (m, inl IndexError) /\
  set_false x y m = (m, inl IndexError) /\
  switch x y m = (m, inl IndexError).
Proof.
  intros (Hog & Hnew & Hsh & _) Hx Hy Hcase.
  pose proof (ceil_half_spec (og_size m)) as Hs. rewrite <- Hnew in Hs.
  apply methods_index_error; try done.
  unfold dom, domain_of. rewrite !Z.gtb_ltb.
  destruct (Z.ltb_spec x (new_size m)); destruct (Z.ltb_spec y (new_size m));
    destruct (Z.ltb_spec (new_size m) x);
    destruct (Z.ltb_spec (new_size m) y);
    simpl; unfold packed_x, packed_y; simpl; lia.
Qed.

Lemma negative_coordinates_index_error_witness :
  get (-4) 1 mat5 = (mat5, inl IndexError) /\
  set_true (-4) 1 mat5 = (mat5, inl IndexError) /\
  set_false (-4) 1 mat5 = (mat5, inl IndexError) /\
  switch (-4) 1 mat5 = (mat5, inl IndexError).
Proof.
  apply (negative_coordinates_index_error mat5 (-4) 1);
    [apply wfb_sound; reflexivity | simpl; lia | simpl; lia
    | left; simpl; lia].
Defined.

(** ** From the constructor on *)

(** X11.  Whenever the constructor returns a structure for a positive
    size that fits [og_size], the structure has [og_size = size],
    [new_size = ceil(size / 2)] and a store of [new_size] rows, and [get]
    returns [False] in it at every coordinate of the logical matrix. *)
Theorem init_positive (size x y : Z) (m : MatStruct) :
  0 < size < 2 ^ 31 -> init size = inr m ->
  0 <= x < size -> 0 <= y < size ->
  og_size m = size /\ new_size m = ceil_half size /\
  length (matrix m) = Z.to_nat (ceil_half size) /\
  get x y m = (m, inr false).
Proof.
  intros Hsize Hinit Hx Hy.
  destruct (init_wf size Hsize) as (m' & Hinit' & Hwf & Hog & Hcells).
  replace m' with m in * by congruence.
  pose proof Hwf as (_ & Hnew & Hsh & Hc). pose proof Hsh as (_ & Hlen & _).
  rewrite Hog in Hnew. rewrite <- Hnew.
  do 3 (split; [done|]).
  assert (addressable m x y) as Haddr
    by (apply valid_addressable; [done | lia..]).
  rewrite (get_addressed m x y Hsh Hc Haddr 0).
  - pose proof (domain_of_range (new_size m) x y) as Hd.
    fold (dom m x y) in Hd. by each_domain (dom m x y) Hd.
  - destruct Haddr as (_ & _ & Hr & Hcl). apply Hcells; by apply norm_lt.
Qed.

Lemma init_positive_witness :
  og_size mat5 = 5 /\ new_size mat5 = ceil_half 5 /\
  length (matrix mat5) = Z.to_nat (ceil_half 5) /\
  get 3 4 mat5 = (mat5, inr false).
Proof. apply (init_positive 5 3 4 mat5); [lia | reflexivity | lia | lia]. Defined.

Lemma one_store_wf (m : MatStruct) (r : MatStruct * (exn + unit)) :
  one_store m r -> wf m -> wf (fst r) /\ og_size (fst r) = og_size m.
Proof.
  intros [[e ->]|(n & k & w & Hw & ->)] Hwf; simpl; [done|].
  split; [by apply upd_wf | apply upd_og_size].
Qed.

Lemma after_wf (c : call) (m : MatStruct) :
  wf m -> wf (after c m) /\ og_size (after c m) = og_size m.
Proof.
  intros Hwf. destruct c as [x y|x y|x y|x y| |]; simpl.
  - by rewrite get_read_only.
  - by apply one_store_wf; [apply set_true_cases|].
  - by apply one_store_wf; [apply set_false_cases|].
  - by apply one_store_wf; [apply switch_cases|].
  - destruct (all_false_run m Hwf) as (m' & -> & Hwf' & Hog & _). by simpl.
  - destruct (all_true_run m Hwf) as (m' & -> & Hwf' & Hog & _). by simpl.
Qed.

Lemma reachable_from_invariant (size : Z) (m : MatStruct) :
  0 < size < 2 ^ 31 -> reachable_from size m -> wf m /\ og_size m = size.
Proof.
  intros Hsize Hreach. induction Hreach as [m Hinit|c m Hreach IH].
  - destruct (init_wf size Hsize) as (m' & Hinit' & Hwf & Hog & _).
    by replace m with m' by congruence.
  - destruct IH as (Hwf & Hog).
    destruct (after_wf c m Hwf) as (Hwf' & Hog'). split; [done|congruence].
Qed.

(** X12.  Whatever is called after the construction of a matrix of
    positive size, with whatever arguments and whether the calls return or
    raise, the structure stays well formed: [og_size] is the size asked
    for, [new_size] is [ceil(og_size / 2)], the store keeps its [new_size]
    rows of [new_size] cells, and every cell is in [0, 15]. *)
Theorem reachable_from_wf (size : Z) (m : MatStruct) :
  0 < size < 2 ^ 31 -> reachable_from size m ->
  og_size m = size /\ new_size m = ceil_half size /\
  length (matrix m) = Z.to_nat (new_size m) /\
  Forall (fun row => length row = Z.to_nat (new_size m) /\
                     Forall (fun v => 0 <= v <= 15) row) (matrix m).
Proof.
  intros Hsize Hreach.
  destruct (reachable_from_invariant size m Hsize Hreach) as (Hwf & Hog).
  destruct Hwf as (_ & Hnew & (_ & Hlen & Hrows) & Hc).
  split; [done|]. split; [congruence|]. split; [done|].
  apply Forall_lookup. intros i row Hrow. split.
  - apply (proj1 (Forall_lookup _ _) Hrows _ _ Hrow).
  - apply (proj1 (Forall_lookup _ _) Hc _ _ Hrow).
Qed.

Lemma reachable_from_wf_witness :
  let m := after (CallSetTrue (-1) 0) (after (CallSwitch 9 9)
             (after CallAllTrue mat5)) in
  og_size m = 5 /\ new_size m = ceil_half 5 /\
  length (matrix m) = Z.to_nat (new_size m) /\
  Forall (fun row => length row = Z.to_nat (new_size m) /\
                     Forall (fun v => 0 <= v <= 15) row) (matrix m).
Proof.
  apply (reachable_from_wf 5 _); [lia|].
  apply from_call, from_call, from_call, from_init. reflexivity.
Defined.

(** ** The dense matrix *)

Lemma for_fold_seqZ_inv {T : Type} (P : Z -> T -> Prop)
    (body : Z -> T -> M T) (n : Z) (m : MatStruct) :
  (forall k s, 0 <= k < n -> P k s ->
     exists s', body k s m = (m, inr s') /\ P (k + 1) s') ->
  forall (count : nat) (a : Z) (s : T),
    0 <= a -> a + Z.of_nat count <= n -> P a s ->
    exists s', for_fold (seqZ a (Z.of_nat count)) body s m = (m, inr s') /\
               P (a + Z.of_nat count) s'.
Proof.
  intros Hbody. induction count as [|count IH]; intros a s Ha Hn HP.
  - exists s. rewrite seqZ_nil by lia. split; [done|].
    by replace (a + Z.of_nat 0) with a by lia.
  - rewrite seqZ_cons by lia.
    replace (Z.pred (Z.of_nat (S count))) with (Z.of_nat count) by lia.
    destruct (Hbody a s) as (s1 & Hrun & HP1); [lia | done |].
    destruct (IH (Z.succ a) s1) as (s2 & Hrest & HP2); [lia | lia | |].
    + by replace (Z.succ a) with (a + 1) by lia.
    + exists s2. simpl. unfold bind. rewrite Hrun. split; [done|].
      by replace (a + Z.of_nat (S count))
        with (Z.succ a + Z.of_nat count) by lia.
Qed.

Lemma for_fold_range_inv {T : Type} (P : Z -> T -> Prop)
    (body : Z -> T -> M T) (n : Z) (m : MatStruct) (s : T) :
  0 <= n ->
  (forall k s, 0 <= k < n -> P k s ->
     exists s', body k s m = (m, inr s') /\ P (k + 1) s') ->
  P 0 s ->
  exists s', for_fold (range n) body s m = (m, inr s') /\ P n s'.
Proof.
  intros Hn Hbody HP. unfold range.
  destruct (for_fold_seqZ_inv P body n m Hbody (Z.to_nat n) 0 s)
    as (s' & Hrun & HP'); [lia | lia | done |].
  exists s'. rewrite Z2Nat.id in Hrun, HP' by done. by split.
Qed.

Lemma get_bit (m : MatStruct) (x y : Z) :
  wf m -> 0 <= x < og_size m -> 0 <= y < og_size m ->
  get x y m = (m, inr (bit m x y)).
Proof.
  intros Hwf Hx Hy. pose proof Hwf as (_ & _ & Hsh & Hc).
  pose proof (valid_addressable m x y Hwf Hx Hy) as Haddr.
  destruct (addressed_cell m x y Hsh Hc Haddr) as (v & Hv & _).
  rewrite (get_addressed m x y Hsh Hc Haddr v Hv). unfold bit. by rewrite Hv.
Qed.

Lemma getitem_nonneg {A : Type} (l : list A) (i : Z) (a : A) :
  0 <= i -> l !! Z.to_nat i = Some a -> getitem l i = inr a.
Proof.
  intros Hi Ha. unfold getitem.
  pose proof (lookup_lt_Some _ _ _ Ha) as Hlt.
  rewrite subscript_in_range, norm_nonneg by lia. by rewrite Ha.
Qed.

Lemma setitem_nonneg {A : Type} (l : list A) (i : Z) (a : A) :
  0 <= i < Z.of_nat (length l) ->
  setitem l i a = inr (<[Z.to_nat i := a]> l).
Proof.
  intros Hi. unfold setitem.
  by rewrite subscript_in_range, norm_nonneg by lia.
Qed.

Lemma dense_cell (m : MatStruct) (i k : Z) (res : list (list bool)) :
  wf m -> 0 <= i < og_size m -> 0 <= k < og_size m ->
  dense_before m i k res ->
  exists res',
    (b <- get i k ;;
     row <- lift (getitem res i) ;;
     row' <- lift (setitem row k b) ;;
     lift (setitem res i row')) m = (m, inr res') /\
    dense_before m i (k + 1) res'.
Proof.
  intros Hwf Hi Hk (Hlen & Hrows & Hfill).
  destruct (lookup_lt_is_Some_2 res (Z.to_nat i)) as [row Hrow]; [lia|].
  pose proof (proj1 (Forall_lookup _ _) Hrows _ _ Hrow) as Hrl.
  simpl in Hrl.
  exists (<[Z.to_nat i := <[Z.to_nat k := bit m i k]> row]> res).
  split.
  - unfold bind, lift. rewrite get_bit by done.
    rewrite (getitem_nonneg res i row) by (done || lia).
    rewrite setitem_nonneg by lia. by rewrite setitem_nonneg by lia.
  - split; [by rewrite length_insert|]. split.
    + apply Forall_insert; [done|]. by rewrite length_insert.
    + intros i' j' Hi' Hj' Hpos. unfold entry.
      destruct (decide (i' = Z.to_nat i)) as [->|Hne].
      * rewrite list_lookup_insert_eq by lia.
        destruct (decide (j' = Z.to_nat k)) as [->|Hnej].
        -- rewrite list_lookup_insert_eq by lia. by rewrite !Z2Nat.id by lia.
        -- rewrite list_lookup_insert_ne by done.
           specialize (Hfill (Z.to_nat i) j' Hi' Hj'). unfold entry in Hfill.
           rewrite Hrow in Hfill. apply Hfill. lia.
      * rewrite list_lookup_insert_ne by done.
        apply (Hfill i' j' Hi' Hj'). lia.
Qed.

Lemma dense_row (m : MatStruct) (i : Z) (res : list (list bool)) :
  wf m -> 0 <= i < og_size m -> dense_before m i 0 res ->
  exists res',
    (og' <- self_og_size ;;
     for_fold (range og') (fun j res =>
       b <- get i j ;;
       row <- lift (getitem res i) ;;
       row' <- lift (setitem row j b) ;;
       lift (setitem res i row')) res) m = (m, inr res') /\
    dense_before m (i + 1) 0 res'.
Proof.
  intros Hwf Hi Hfill. unfold bind at 1. unfold self_og_size.
  destruct (for_fold_range_inv (dense_before m i)
              (fun j res =>
                 b <- get i j ;;
                 row <- lift (getitem res i) ;;
                 row' <- lift (setitem row j b) ;;
                 lift (setitem res i row')) (og_size m) m res)
    as (res' & Hrun & Hres'); [lia | | done |].
  - intros k res0 Hk Hres0. by apply dense_cell.
  - exists res'. split; [done|]. destruct Hres' as (Hlen & Hrows & Hcells).
    split; [done|]. split; [done|]. intros i' j' Hi' Hj' Hpos.
    apply Hcells; [done..|]. lia.
Qed.

Lemma entries_dense (m : MatStruct) (res : list (list bool)) :
  0 <= og_size m ->
  dense_before m (og_size m) 0 res -> res = dense m.
Proof.
  intros Hog (Hlen & Hrows & Hcells). unfold dense, range.
  apply list_eq. intros i. rewrite list_lookup_fmap.
  destruct (decide (i < Z.to_nat (og_size m))%nat) as [Hi|Hi].
  - rewrite lookup_seqZ_lt by lia. simpl.
    destruct (lookup_lt_is_Some_2 res i) as [row Hrow]; [lia|].
    rewrite Hrow. f_equal.
    pose proof (proj1 (Forall_lookup _ _) Hrows _ _ Hrow) as Hrl.
    simpl in Hrl. apply list_eq. intros j. rewrite list_lookup_fmap.
    destruct (decide (j < Z.to_nat (og_size m))%nat) as [Hj|Hj].
    + rewrite lookup_seqZ_lt by lia. simpl.
      specialize (Hcells i j Hi Hj). unfold entry in Hcells.
      rewrite Hrow in Hcells. rewrite Hcells by lia. by rewrite !Z.add_0_l.
    + rewrite lookup_seqZ_ge by lia. simpl. apply lookup_ge_None_2. lia.
  - rewrite lookup_seqZ_ge by lia. simpl. apply lookup_ge_None_2. lia.
Qed.

Lemma compact_to_normal_dense (m : MatStruct) :
  wf m -> compact_to_normal m = (m, inr (dense m)).
Proof.
  intros Hwf. pose proof Hwf as (Hog & _).
  unfold compact_to_normal. unfold bind at 1. unfold self_og_size at 1.
  cbv zeta.
  destruct (for_fold_range_inv (fun i => dense_before m i 0)
              (fun i res =>
                 og' <- self_og_size ;;
                 for_fold (range og') (fun j res =>
                   b <- get i j ;;
                   row <- lift (getitem res i) ;;
                   row' <- lift (setitem row j b) ;;
                   lift (setitem res i row')) res)
              (og_size m) m
              (replicate (Z.to_nat (og_size m))
                 (replicate (Z.to_nat (og_size m)) false)))
    as (res' & Hrun & Hres'); [lia | | |].
  - intros i res0 Hi Hres0. by apply dense_row.
  - split; [by rewrite length_replicate|]. split.
    + apply Forall_replicate. by rewrite length_replicate.
    + intros i' j' _ _ Hpos. lia.
  - rewrite Hrun. do 2 f_equal. apply entries_dense; [lia | done].
Qed.

(** X13.  On a well-formed structure [compact_to_normal] returns, leaves
    the structure as it was, and gives [og_size] rows of [og_size]
    booleans in which row [x], column [y] is what [get x y] returns. *)
Theorem compact_to_normal_spec (m : MatStruct) (x y : Z) :
  wf m -> 0 <= x < og_size m -> 0 <= y < og_size m ->
  exists res row b,
    compact_to_normal m = (m, inr res) /\
    length res = Z.to_nat (og_size m) /\
    Forall (fun row => length row = Z.to_nat (og_size m)) res /\
    res !! Z.to_nat x = Some row /\ row !! Z.to_nat y = Some b /\
    get x y m = (m, inr b).
Proof.
  intros Hwf Hx Hy.
  exists (dense m), ((fun j => bit m x j) <$> range (og_size m)), (bit m x y).
  split; [by apply compact_to_normal_dense|]. unfold dense, range.
  split; [by rewrite length_fmap, length_seqZ|]. split.
  - apply Forall_fmap, Forall_forall. intros i _. simpl.
    by rewrite length_fmap, length_seqZ.
  - rewrite !list_lookup_fmap, !lookup_seqZ_lt by lia. simpl.
    rewrite !Z.add_0_l, !Z2Nat.id by lia.
    split; [done|]. split; [done | by apply get_bit].
Qed.

Lemma compact_to_normal_spec_witness :
  exists res row b,
    compact_to_normal mat5 = (mat5, inr res) /\
    length res = Z.to_nat (og_size mat5) /\
    Forall (fun row => length row = Z.to_nat (og_size mat5)) res /\
    res !! Z.to_nat 3 = Some row /\ row !! Z.to_nat 2 = Some b /\
    get 3 2 mat5 = (mat5, inr b).
Proof.
  apply (compact_to_normal_spec mat5 3 2);
    [apply wfb_sound; reflexivity | simpl; lia | simpl; lia].
Defined.

(** ** The text of a matrix *)

Lemma append_assoc (s1 s2 s3 : string) :
  (s1 +:+ s2) +:+ s3 = s1 +:+ (s2 +:+ s3).
Proof.
  induction s1 as [|a s1 IH]; [done|].
  change (String a ((s1 +:+ s2) +:+ s3) = String a (s1 +:+ (s2 +:+ s3))).
  by rewrite IH.
Qed.

Lemma append_empty_r (s : string) : s +:+ EmptyString = s.
Proof.
  induction s as [|a s IH]; [done|].
  change (String a (s +:+ EmptyString) = String a s). by rewrite IH.
Qed.

Lemma concat_text_snoc (l : list string) (t : string) :
  concat_text (l ++ [t]) = concat_text l +:+ t.
Proof.
  induction l as [|t' l IH]; simpl.
  - by rewrite append_empty_r.
  - by rewrite IH, append_assoc.
Qed.

Lemma seqZ_snoc (k : Z) : 0 <= k -> seqZ 0 (k + 1) = seqZ 0 k ++ [k].
Proof.
  intros Hk. rewrite seqZ_app by lia. by f_equal.
Qed.

Lemma text_cells_step (m : MatStruct) (i k : Z) :
  0 <= k ->
  text_cells m i (k + 1) =
  text_cells m i k +:+ (str_bool (bit m i k) +:+ " ").
Proof.
  intros Hk. unfold text_cells.
  rewrite seqZ_snoc, fmap_app by done. apply concat_text_snoc.
Qed.

Lemma text_rows_step (m : MatStruct) (n i : Z) :
  0 <= i ->
  text_rows m n (i + 1) = text_rows m n i +:+ (text_cells m i n +:+ newline).
Proof.
  intros Hi. unfold text_rows.
  rewrite seqZ_snoc, fmap_app by done. apply concat_text_snoc.
Qed.

Lemma text_rows_render (m : MatStruct) :
  text_rows m (og_size m) (og_size m) = render (dense m).
Proof.
  unfold text_rows, text_cells, render, dense, range.
  rewrite <- list_fmap_compose. f_equal. apply list_fmap_ext.
  intros _ i _. simpl. by rewrite <- list_fmap_compose.
Qed.

Lemma bind_returns {A B : Type} (c : M A) (k : A -> M B)
    (m m' : MatStruct) (a : A) :
  c m = (m', inr a) -> bind c k m = k a m'.
Proof. intros Hc. unfold bind. by rewrite Hc. Qed.

Lemma str_text_rows (m : MatStruct) :
  wf m -> __str__ m = (m, inr (text_rows m (og_size m) (og_size m))).
Proof.
  intros Hwf. pose proof Hwf as (Hog & _).
  unfold __str__. unfold bind at 1. unfold self_og_size at 1.
  destruct (for_fold_range_inv
              (fun i string => string = text_rows m (og_size m) i)
              (fun i string =>
                 og' <- self_og_size ;;
                 string' <- for_fold (range og') (fun j string =>
                   b <- get i j ;;
                   ret (string +:+ (str_bool b +:+ " "))) string ;;
                 ret (string' +:+ newline))
              (og_size m) m EmptyString)
    as (text & Hrun & ->); [lia | | done | done].
  intros i string Hi ->.
  destruct (for_fold_range_inv
              (fun k string =>
                 string = text_rows m (og_size m) i +:+ text_cells m i k)
              (fun j string =>
                 b <- get i j ;;
                 ret (string +:+ (str_bool b +:+ " ")))
              (og_size m) m (text_rows m (og_size m) i))
    as (text & Hrun & ->); [lia | | |].
  - intros k string Hk ->. eexists. unfold bind, ret.
    rewrite get_bit by done. split; [done|].
    by rewrite text_cells_step, append_assoc by lia.
  - unfold text_cells. rewrite seqZ_nil by lia. simpl.
    by rewrite append_empty_r.
  - eexists. split.
    + rewrite (bind_returns _ _ m m (og_size m)) by done.
      by rewrite (bind_returns _ _ _ _ _ Hrun).
    + by rewrite text_rows_step, append_assoc by lia.
Qed.

(** X14.  On a well-formed structure [__str__] returns, leaves the
    structure as it was, and gives the text of what [compact_to_normal]
    returns: for each row in turn, each boolean as [True] or [False]
    followed by a blank, and a line feed after the row. *)
Theorem str_renders_dense (m : MatStruct) :
  wf m ->
  exists res,
    compact_to_normal m = (m, inr res) /\
    __str__ m = (m, inr (render res)).
Proof.
  intros Hwf. exists (dense m).
  split; [by apply compact_to_normal_dense|].
  rewrite str_text_rows by done. by rewrite text_rows_render.
Qed.

Lemma str_renders_dense_witness :
  exists res,
    compact_to_normal mat4 = (mat4, inr res) /\
    __str__ mat4 = (mat4, inr (render res)).
Proof. apply (str_renders_dense mat4). apply wfb_sound. reflexivity. Defined.

(** ** Equality of matrices *)

Lemma for_return_all_or_first {A R : Type} (l : list A)
    (body : A -> exn + option R) (r : R) :
  (forall a, a ∈ l -> body a = inr None \/ body a = inr (Some r)) ->
  (for_return l body = inr None /\
   Forall (fun a => body a = inr None) l) \/
  (for_return l body = inr (Some r) /\
   Exists (fun a => body a = inr (Some r)) l).
Proof.
  induction l as [|a l IH]; intros Hbody; simpl.
  - left. by split.
  - destruct (Hbody a) as [Ha|Ha]; [by left | |].
    + rewrite Ha. destruct IH as [[Hrun Hall]|[Hrun Hex]].
      * intros a' Ha'. apply Hbody. by right.
      * left. split; [done|]. by constructor.
      * right. split; [done|]. by apply Exists_cons_tl.
    + rewrite Ha. right. split; [done|]. by apply Exists_cons_hd.
Qed.

(** X15.  For two well-formed structures [__eq__] returns, and it returns
    [True] exactly when both have the same [og_size] and [get] returns the
    same at every coordinate of the logical matrix. *)
Theorem eq_spec (self other : MatStruct) :
  wf self -> wf other ->
  exists b,
    __eq__ self other = inr b /\
    (b = true <->
     og_size self = og_size other /\
     forall x y, 0 <= x < og_size self -> 0 <= y < og_size self ->
       snd (get x y self) = snd (get x y other)).
Proof.
  intros Hwf Hwf'. pose proof Hwf as (Hog & _). pose proof Hwf' as (Hog' & _).
  unfold __eq__, __len__, bind, self_og_size, ret. simpl.
  destruct (Z.eqb_spec (og_size self * og_size self)
              (og_size other * og_size other)) as [Hsq|Hsq]; simpl.
  2: { exists false. split; [done|]. split; [done|]. intros [Heq _].
       rewrite Heq in Hsq. done. }
  assert (og_size self = og_size other) as Heq by nia.
  set (inner := fun i =>
    for_return (range (og_size self)) (fun j =>
      match snd (get i j self) with
      | inl e => inl e
      | inr a =>
          match snd (get i j other) with
          | inl e => inl e
          | inr b =>
              if negb (Bool.eqb a b) then inr (Some false) else inr None
          end
      end)).
  assert (forall i, 0 <= i < og_size self ->
            (inner i = inr None /\
             forall j, 0 <= j < og_size self ->
               bit self i j = bit other i j) \/
            (inner i = inr (Some false) /\
             exists j, 0 <= j < og_size self /\
               bit self i j <> bit other i j)) as Hinner.
  { intros i Hi. subst inner. cbv beta.
    match goal with |- context [for_return ?l ?f] =>
      destruct (for_return_all_or_first l f false) as [[-> Hall]|[-> Hex]]
    end.
    - intros j [Hj1 Hj2]%elem_of_seqZ.
      rewrite !get_bit by (done || lia). simpl.
      destruct (Bool.eqb _ _); simpl; [by left | by right].
    - left. split; [done|]. intros j Hj.
      rewrite Forall_forall in Hall.
      specialize (Hall j ltac:(apply elem_of_seqZ; lia)).
      rewrite !get_bit in Hall by (done || lia). simpl in Hall.
      destruct (Bool.eqb _ _) eqn:Hb; [by apply Bool.eqb_prop|done].
    - right. split; [done|]. apply Exists_exists in Hex as (j & Hj & Hbody).
      apply elem_of_seqZ in Hj. exists j. split; [lia|].
      rewrite !get_bit in Hbody by (done || lia). simpl in Hbody.
      intros Hbit. rewrite Hbit, Bool.eqb_reflx in Hbody. done. }
  fold inner.
  destruct (for_return_all_or_first (range (og_size self)) inner false)
    as [[-> Hall]|[-> Hex]].
  - intros i [Hi1 Hi2]%elem_of_seqZ.
    destruct (Hinner i ltac:(lia)) as [[-> _]|[-> _]]; [by left | by right].
  - exists true. split; [done|]. split; [|done]. intros _. split; [done|].
    intros x y Hx Hy. rewrite !get_bit by (done || lia). simpl. f_equal.
    rewrite Forall_forall in Hall.
    specialize (Hall x ltac:(apply elem_of_seqZ; lia)).
    destruct (Hinner x Hx) as [[_ Hbits]|[Hrun _]]; [by apply Hbits|].
    rewrite Hrun in Hall. done.
  - exists false. split; [done|]. split; [done|]. intros [_ Hall].
    apply Exists_exists in Hex as (i & Hi & Hrun).
    apply elem_of_seqZ in Hi.
    destruct (Hinner i ltac:(lia)) as [[Hnone _]|[_ (j & Hj & Hne)]].
    + rewrite Hnone in Hrun. done.
    + specialize (Hall i j ltac:(lia) Hj).
      rewrite !get_bit in Hall by (done || lia). simpl in Hall. congruence.
Qed.

Lemma eq_spec_witness :
  exists b,
    __eq__ mat5 (after (CallSetTrue 1 1) mat5) = inr b /\
    (b = true <->
     og_size mat5 = og_size (after (CallSetTrue 1 1) mat5) /\
     forall x y, 0 <= x < og_size mat5 -> 0 <= y < og_size mat5 ->
       snd (get x y mat5) = snd (get x y (after (CallSetTrue 1 1) mat5))).
Proof.
  apply (eq_spec mat5 (after (CallSetTrue 1 1) mat5));
    apply wfb_sound; reflexivity.
Defined.

(** ** Filling, again *)

Lemma cells_replicate (m : MatStruct) (v : Z) :
  shape_ok m ->
  (forall i j : nat,
     (i < Z.to_nat (new_size m))%nat -> (j < Z.to_nat (new_size m))%nat ->
     cell m i j = Some v) ->
  matrix m =
    replicate (Z.to_nat (new_size m)) (replicate (Z.to_nat (new_size m)) v).
Proof.
  intros (Hs & Hlen & Hrows) Hcells. apply list_eq. intros i.
  destruct (decide (i < Z.to_nat (new_size m))%nat) as [Hi|Hi].
  - rewrite lookup_replicate_2 by done.
    destruct (lookup_lt_is_Some_2 (matrix m) i) as [row Hrow]; [lia|].
    rewrite Hrow. f_equal.
    pose proof (proj1 (Forall_lookup _ _) Hrows _ _ Hrow) as Hrl.
    simpl in Hrl. apply list_eq. intros j.
    destruct (decide (j < Z.to_nat (new_size m))%nat) as [Hj|Hj].
    + rewrite lookup_replicate_2 by done.
      specialize (Hcells i j Hi Hj). unfold cell in Hcells.
      by rewrite Hrow in Hcells.
    + rewrite !lookup_ge_None_2; [done | rewrite length_replicate; lia | lia].
  - rewrite !lookup_ge_None_2; [done | rewrite length_replicate; lia | lia].
Qed.

(** X16.  On a well-formed structure [all_false] and [all_true] return
    and forget everything stored before: what they leave depends on the
    sizes only, has 0 (resp. 15) in each of the [new_size * new_size]
    cells, and after [all_false] is the structure the constructor builds
    for that size. *)
Theorem fill_resets (m : MatStruct) :
  wf m -> og_size m < 2 ^ 31 ->
  let n := Z.to_nat (new_size m) in
  all_false m =
    (mkMat (og_size m) (new_size m) (replicate n (replicate n 0)), inr tt) /\
  all_true m =
    (mkMat (og_size m) (new_size m) (replicate n (replicate n 15)), inr tt) /\
  init (og_size m) = inr (fst (all_false m)).
Proof.
  intros Hwf Hsmall n. subst n.
  destruct (all_false_run m Hwf) as (m0 & Hrun0 & Hwf0 & Hog0 & Hnew0 & Hc0).
  destruct (all_true_run m Hwf) as (m1 & Hrun1 & Hwf1 & Hog1 & Hnew1 & Hc1).
  pose proof Hwf0 as (_ & _ & Hsh0 & _). pose proof Hwf1 as (_ & _ & Hsh1 & _).
  rewrite <- Hnew0 in Hc0. rewrite <- Hnew1 in Hc1.
  pose proof (cells_replicate m0 0 Hsh0 Hc0) as Hm0.
  pose proof (cells_replicate m1 15 Hsh1 Hc1) as Hm1.
  rewrite Hnew0 in Hm0. rewrite Hnew1 in Hm1.
  assert (m0 = mkMat (og_size m) (new_size m)
                 (replicate (Z.to_nat (new_size m))
                    (replicate (Z.to_nat (new_size m)) 0))) as E0
    by (destruct m0; simpl in *; congruence).
  assert (m1 = mkMat (og_size m) (new_size m)
                 (replicate (Z.to_nat (new_size m))
                    (replicate (Z.to_nat (new_size m)) 15))) as E1
    by (destruct m1; simpl in *; congruence).
  rewrite Hrun0, Hrun1, <- E0, <- E1. split; [done|]. split; [done|].
  simpl. destruct Hwf as (Hog & Hnew & _ & _).
  pose proof (ceil_half_spec (og_size m)) as Hs.
  unfold init. destruct (Z.ltb_spec (ceil_half (og_size m)) 0); [lia|].
  rewrite !c_int32_small by lia. rewrite E0, Hnew. done.
Qed.

Lemma fill_resets_witness :
  let m := after (CallSwitch 3 1) (after (CallSetTrue 2 2) mat5) in
  let n := Z.to_nat (new_size m) in
  all_false m =
    (mkMat (og_size m) (new_size m) (replicate n (replicate n 0)), inr tt) /\
  all_true m =
    (mkMat (og_size m) (new_size m) (replicate n (replicate n 15)), inr tt) /\
  init (og_size m) = inr (fst (all_false m)).
Proof.
  apply (fill_resets (after (CallSwitch 3 1) (after (CallSetTrue 2 2) mat5)));
    [apply wfb_sound; reflexivity | vm_compute; reflexivity].
Defined.

(** ** The partitioner, again *)

(** X17.  On any structure [__get_domain] stores nothing; it raises
    [OutOfBound] when [x] or [y] is [og_size] or more, and otherwise
    answers 3 when [x] or [y] equals [new_size], and elsewhere 0, 1, 2, 3
    for the quadrants below/below, above/below, below/above and
    above/above [new_size]. *)
Theorem get_domain_closed_form (m : MatStruct) (x y : Z) :
  get_domain x y m =
    (m,
     if (og_size m <=? x) || (og_size m <=? y) then inl OutOfBound
     else if (x =? new_size m) || (y =? new_size m) then inr 3
     else if (x <? new_size m) && (y <? new_size m) then inr 0
     else if (new_size m <? x) && (y <? new_size m) then inr 1
     else if (x <? new_size m) && (new_size m <? y) then inr 2
     else inr 3).
Proof.
  destruct (Z.leb_spec (og_size m) x) as [Hx|Hx]; simpl;
    [by apply get_domain_out_of_range; left|].
  destruct (Z.leb_spec (og_size m) y) as [Hy|Hy]; simpl;
    [by apply get_domain_out_of_range; right|].
  rewrite get_domain_in_range by done. unfold dom.
  rewrite domain_of_domain_at. unfold domain_at, quadrant. do 2 f_equal.
  destruct (Z.eqb_spec x (new_size m)), (Z.eqb_spec y (new_size m));
    simpl; try done.
  destruct (Z.ltb_spec x (new_size m)), (Z.ltb_spec y (new_size m)),
    (Z.ltb_spec (new_size m) x), (Z.ltb_spec (new_size m) y),
    (Z.leb_spec (new_size m) x), (Z.leb_spec (new_size m) y);
    simpl; solve [done | lia].
Qed.
